(** * mcp_scraper: HTML to Markdown conversion pipeline

    A shallow embedding of the conversion path of the repository:

    - [src/data_processing.ts]: [htmlToMarkdown], the script-stripping
      regular expression followed by the Markdown converter;
    - [src/index.ts]: [scrapeToMarkdown] (fetch, article extraction,
      conversion, code-fence language hints) and the handler of the
      [scrape-to-markdown] tool; the weather tools and the start of the
      server;
    - [cli.ts]: the command line around both.

    JavaScript strings are sequences of UTF-16 code units; they are modelled
    as lists of numbers, so that [length] is the [.length] of the source and
    the character classes of the regular expressions ([\s], [\b], the [i]
    flag) can be written out on code units. *)

From Stdlib Require Import String Ascii DecimalString.
From Stdlib Require Import List NArith Arith Bool Lia.
Import ListNotations.

Set Warnings "-register-all".

(** ** JavaScript strings *)

Module Js.

Definition char := N.
Definition str := list char.

(** Literals are written as ASCII strings and mapped to code units. *)
Definition lit (s : string) : str :=
  List.map N_of_ascii (list_ascii_of_string s).

Definition nl : char := 10%N.
Definition backtick : char := 96%N.
Definition lt_sign : char := 60%N.

(** [strip_prefix_by eq p s] consumes the pattern [p] at the start of [s],
    comparing code units with [eq]; it returns what follows. *)
Fixpoint strip_prefix_by (eq : char -> char -> bool) (p s : str) : option str :=
  match p with
  | [] => Some s
  | x :: p' =>
      match s with
      | [] => None
      | y :: s' => if eq x y then strip_prefix_by eq p' s' else None
      end
  end.

Definition strip_prefix := strip_prefix_by N.eqb.

(** The white space class [\s] of ECMAScript (WhiteSpace and LineTerminator
    code points); [String.prototype.trim] strips the same set. *)
Definition is_space (c : char) : bool :=
  (N.leb 9 c && N.leb c 13) || N.eqb c 32 || N.eqb c 160 || N.eqb c 5760
  || (N.leb 8192 c && N.leb c 8202) || N.eqb c 8232 || N.eqb c 8233
  || N.eqb c 8239 || N.eqb c 8287 || N.eqb c 12288 || N.eqb c 65279.

(** The word class [\w] of a regular expression without the [u] flag. *)
Definition is_word (c : char) : bool :=
  (N.leb 48 c && N.leb c 57) || (N.leb 65 c && N.leb c 90)
  || (N.leb 97 c && N.leb c 122) || N.eqb c 95.

(** Canonicalisation of the [i] flag, on the ASCII letters a pattern of the
    source contains: without the [u] flag a code unit above 127 is never
    folded onto an ASCII letter, so only the letter and its other case
    match. *)
Definition upper (c : char) : char :=
  if N.leb 97 c && N.leb c 122 then (c - 32)%N else c.

Definition eqb_ci (x y : char) : bool := N.eqb (upper x) (upper y).

Fixpoint take_while (f : char -> bool) (s : str) : str :=
  match s with
  | [] => []
  | c :: s' => if f c then c :: take_while f s' else []
  end.

Fixpoint drop_while (f : char -> bool) (s : str) : str :=
  match s with
  | [] => []
  | c :: s' => if f c then drop_while f s' else s
  end.

(** *** [String.prototype.replace] with a global regular expression

    A regular expression is given by its matcher at a position: on the text
    that starts there it returns the replacement text and the number of code
    units the match consumed.  The global replacement scans from the left,
    replaces a match and resumes behind it.  [skip] counts the code units of
    the current match that are still to be passed over.  Every pattern of
    the source consumes at least one code unit. *)
Section Replace.

Variable matcher : str -> option (str * nat).

Fixpoint replace_from (skip : nat) (s : str) : str :=
  match s with
  | [] => []
  | c :: s' =>
      match skip with
      | S k => replace_from k s'
      | O =>
          match matcher s with
          | Some (rep, len) => rep ++ replace_from (pred len) s'
          | None => c :: replace_from 0 s'
          end
      end
  end.

Definition replace_all (s : str) : str := replace_from 0 s.

End Replace.

(** Alternation [(a1|a2|...)] followed by the rest of the pattern [k]: the
    alternatives are tried in order, and the next one is tried when the
    rest of the pattern fails behind the current one (backtracking). *)
Fixpoint alt_then {A : Type} (alts : list str) (k : str -> str -> option A)
    (s : str) : option A :=
  match alts with
  | [] => None
  | a :: alts' =>
      match strip_prefix a s with
      | Some rest =>
          match k a rest with
          | Some r => Some r
          | None => alt_then alts' k s
          end
      | None => alt_then alts' k s
      end
  end.

(** Template literals print a number in decimal. *)
Definition decimal (n : N) : str := lit (NilZero.string_of_uint (N.to_uint n)).

End Js.

Import Js.

(** ** The code-fence language hints of [scrapeToMarkdown]
    ([src/index.ts], the two [markdown.replace] lines) *)

Module Classifier.

Definition fence : str := lit "```" ++ [nl].

Definition js_keywords : list str :=
  List.map lit ["class"; "function"; "import"; "const"; "let"; "var";
                "if"; "for"; "while"]%string.

Definition py_keywords : list str :=
  List.map lit ["def"; "class"; "import"; "from"; "with"; "if"; "for";
                "while"]%string.

Definition js_tag : str := lit "```javascript" ++ [nl].
Definition py_tag : str := lit "```python" ++ [nl].

(** [/```\n(class|function|import|const|let|var|if|for|while)/g] with the
    replacement ['```javascript\n$1']. *)
Definition js_rule (s : str) : option (str * nat) :=
  match strip_prefix fence s with
  | Some t =>
      alt_then js_keywords
        (fun kw _ => Some (js_tag ++ kw, length fence + length kw)) t
  | None => None
  end.

(** [/```\n(def|class|import|from|with|if|for|while)(\s+)/g] with the
    replacement ['```python\n$1$2']; [\s+] is greedy. *)
Definition py_rule (s : str) : option (str * nat) :=
  match strip_prefix fence s with
  | Some t =>
      alt_then py_keywords
        (fun kw rest =>
           match take_while is_space rest with
           | [] => None
           | ws => Some (py_tag ++ kw ++ ws,
                         length fence + length kw + length ws)
           end) t
  | None => None
  end.

Definition tag_javascript : str -> str := replace_all js_rule.
Definition tag_python : str -> str := replace_all py_rule.

(** The post-processing of [scrapeToMarkdown], in the order of the source. *)
Definition classify (markdown : str) : str :=
  tag_python (tag_javascript markdown).

End Classifier.

(** ** The script filter of [htmlToMarkdown]
    ([src/data_processing.ts], the [html.replace] line) *)

Module Sanitizer.

Definition script_open : str := lit "<script".
Definition script_close : str := lit "</script>".

(** [\b] behind the word character [t] of [<script]: the next code unit is
    not a word character, or the input ends. *)
Definition boundary_after_word (t : str) : bool :=
  match t with
  | [] => true
  | c :: _ => negb (is_word c)
  end.

(** The part of the pattern behind [<script\b]: a greedy run of code units
    other than [<], then any number of groups made of the negative
    look-ahead for the closing tag, a [<] and another such run, then the
    closing tag [<\/script>].  The result is the number of code units up to
    the end of the first closing tag.  The runs are greedy and whatever
    follows them in the pattern has to start with [<], so giving code units
    back never helps: the scan stands on a [<] whenever it may stop.  There
    the look-ahead ends the loop exactly when the closing tag is ahead, and
    a [<] that passed the look-ahead is not the start of the closing tag. *)
Fixpoint script_body (s : str) : option nat :=
  match s with
  | [] => None
  | c :: s' =>
      if N.eqb c lt_sign then
        match strip_prefix_by eqb_ci script_close s with
        | Some _ => Some (length script_close)
        | None => option_map S (script_body s')
        end
      else option_map S (script_body s')
  end.

(** The whole pattern, with the flags [g] and [i] and the empty
    replacement: [<script], a word boundary, the body above. *)
Definition script_rule (s : str) : option (str * nat) :=
  match strip_prefix_by eqb_ci script_open s with
  | Some t =>
      if boundary_after_word t then
        match script_body t with
        | Some n => Some ([], length script_open + n)
        | None => None
        end
      else None
  | None => None
  end.

Definition cleanHtml : str -> str := replace_all script_rule.

End Sanitizer.

(** ** The Markdown converter behind [TurndownService]

    [htmlToMarkdown] hands the filtered HTML to the [turndown] package,
    which is a dependency of the repository and not part of its sources.
    The converter is therefore modelled from the specification: the
    document tree of its data model, the per-tag transform table of the
    serializer and the normalizer. *)

Module Turndown.

(** The two options [htmlToMarkdown] passes to the constructor. *)
Inductive CodeBlockStyle := Indented | Fenced.

Record Options := {
  codeBlockStyle : CodeBlockStyle;
  emDelimiter : str
}.

(** Modelled from the spec: the DocumentNode of the data model, a tagged
    variant over elements (tag name, ordered attributes, ordered children
    owned by their parent), text and comments.  The DOM builder that
    produces it is an external collaborator. *)
Inductive DocumentNode :=
| Element (tag : string) (attrs : list (string * str))
          (children : list DocumentNode)
| Text (content : str)
| Comment.

(** Modelled from the spec: the transform descriptors of the rule table
    (underline heading, wrap, link, fenced code, list, list item, table
    cell, generic block, generic inline); the converter itself is missing
    from the sources. *)
Inductive Transform :=
| UnderlineHeading (c : char)
| Wrap (prefix suffix : str)
| Link
| CodeBlock
| ListContainer
| ListItem
| TableCell
| GenericBlock
| GenericInline.

(** Modelled from the spec: the per-tag transform table of the serializer,
    keyed by tag name; the converter itself is missing from the sources.
    [h1] and [h2] are underlined, [h3] and below fall back to the generic
    block, [em] is wrapped in the configured delimiter and [strong] in two
    asterisks; a table and its rows are generic blocks around the cells. *)
Definition rule_table (o : Options) : list (string * Transform) :=
  [ ("h1", UnderlineHeading 61%N); ("h2", UnderlineHeading 45%N);
    ("h3", GenericBlock); ("h4", GenericBlock); ("h5", GenericBlock);
    ("h6", GenericBlock);
    ("em", Wrap (emDelimiter o) (emDelimiter o));
    ("strong", Wrap (lit "**") (lit "**"));
    ("a", Link);
    ("pre", CodeBlock);
    ("ul", ListContainer); ("ol", ListContainer); ("li", ListItem);
    ("td", TableCell); ("th", TableCell);
    ("table", GenericBlock); ("tr", GenericBlock);
    ("p", GenericBlock); ("div", GenericBlock); ("section", GenericBlock);
    ("article", GenericBlock); ("header", GenericBlock);
    ("footer", GenericBlock); ("main", GenericBlock); ("nav", GenericBlock);
    ("aside", GenericBlock); ("blockquote", GenericBlock);
    ("body", GenericBlock); ("html", GenericBlock) ]%string.

(** Lookup in a table keyed by names (the rule table, the attributes of an
    element). *)
Fixpoint assoc {A : Type} (k : string) (l : list (string * A)) : option A :=
  match l with
  | [] => None
  | (k', v) :: l' => if String.eqb k k' then Some v else assoc k l'
  end.

(** Modelled from the spec: the dispatch of the serializer on the tag, which
    is missing from the sources; an unknown tag is unwrapped, its children
    are serialized inline with no added markup. *)
Definition rule_for (o : Options) (tag : string) : Transform :=
  match assoc tag (rule_table o) with
  | Some t => t
  | None => GenericInline
  end.

(** Modelled from the spec: the text content of a node, which the fenced
    code block and the table cell emit verbatim; the DOM is missing from
    the sources. *)
Fixpoint textContent (n : DocumentNode) : str :=
  match n with
  | Element _ _ kids => concat (List.map textContent kids)
  | Text s => s
  | Comment => []
  end.

Definition blank_line : str := [nl; nl].

(** Modelled from the spec: a block is set off from its siblings by blank
    lines; the converter is missing from the sources. *)
Definition block (s : str) : str := blank_line ++ s ++ blank_line.

Definition code_fence : str := lit "```".
Definition bullet : str := lit "*   ".
Definition indent_unit : str := lit "    ".

Fixpoint indentation (depth : nat) : str :=
  match depth with
  | O => []
  | S d => indent_unit ++ indentation d
  end.

(** [intercalate sep l]: the members of [l] with [sep] between them. *)
Fixpoint intercalate (sep : str) (l : list str) : str :=
  match l with
  | [] => []
  | [x] => x
  | x :: l' => x ++ sep ++ intercalate sep l'
  end.

(** Modelled from the spec: the Markdown serializer, one case per row of
    its transform table; the converter itself is missing from the sources.
    [depth] is the number of lists around the node: the items of a list are
    one per line, those of a nested list one level deeper. *)
Fixpoint serialize (o : Options) (depth : nat) (n : DocumentNode) : str :=
  match n with
  | Text s => s
  | Comment => []
  | Element tag attrs kids =>
      let inner := concat (List.map (serialize o depth) kids) in
      match rule_for o tag with
      | UnderlineHeading c =>
          block (inner ++ [nl] ++ repeat c (length inner))
      | Wrap prefix suffix => prefix ++ inner ++ suffix
      | Link =>
          match assoc "href" attrs with
          | Some href =>
              lit "[" ++ inner ++ lit "](" ++ href ++ lit ")"
          | None => inner
          end
      | CodeBlock =>
          match codeBlockStyle o, kids with
          | Fenced, (Element "code" _ _ as code) :: _ =>
              block (code_fence ++ [nl] ++ textContent code ++ [nl]
                     ++ code_fence)
          | _, _ => block inner
          end
      | ListContainer =>
          let items :=
            intercalate [nl] (List.map (serialize o (S depth)) kids) in
          match depth with
          | O => block items
          | S _ => [nl] ++ items
          end
      | ListItem => indentation (pred depth) ++ bullet ++ inner
      | TableCell => block (textContent n)
      | GenericBlock => block inner
      | GenericInline => inner
      end
  end.

(** Modelled from the spec: the normalizer, which collapses a run of three
    or more newlines to two and then trims the white space at both ends;
    it is missing from the sources.  [seen] is the number of newlines at
    the end of what has been emitted, two at most. *)
Fixpoint collapse_from (seen : nat) (s : str) : str :=
  match s with
  | [] => []
  | c :: s' =>
      if N.eqb c nl then
        if Nat.ltb seen 2 then c :: collapse_from (S seen) s'
        else collapse_from seen s'
      else c :: collapse_from 0 s'
  end.

Definition collapse_newlines : str -> str := collapse_from 0.

(** Modelled from the spec: the trimming of the normalizer, with the white
    space of [String.prototype.trim]; the normalizer is missing from the
    sources. *)
Definition trimStart : str -> str := drop_while is_space.

Fixpoint trimEnd (s : str) : str :=
  match s with
  | [] => []
  | c :: s' =>
      match trimEnd s' with
      | [] => if is_space c then [] else [c]
      | t => c :: t
      end
  end.

Definition trim (s : str) : str := trimEnd (trimStart s).

(** Modelled from the spec: the normalizer, collapse then trim; it is
    missing from the sources. *)
Definition normalize (x : str) : str := trim (collapse_newlines x).

(** Modelled from the spec: the conversion of a parsed document without
    the language hints, that is the serialized nodes in document order,
    normalized; the converter is missing from the sources.  The
    specification lists the normalizer as the last stage of its pipeline,
    behind the language hints; [htmlToMarkdown] has no language hints, and
    its tests show output without the blank lines around the outermost
    blocks.  The source itself has no normalizing step: what
    [scrapeToMarkdown] does behind the converter is [Classifier.classify]
    alone. *)
Definition convert (o : Options) (nodes : list DocumentNode) : str :=
  normalize (concat (List.map (serialize o 0) nodes)).

(** Modelled from the spec: the converter as a whole, from HTML text to
    Markdown, around a DOM builder [parse], which is an external
    collaborator; the converter is missing from the sources. *)
Definition markdown_of (parse : str -> list DocumentNode) (o : Options)
    (html : str) : str :=
  convert o (parse html).

End Turndown.

Import Turndown.

(** ** Runtime objects and effects

    A call allocates objects (the regular expression of the filter, the
    converter service) and the scraper sends requests; both are threaded
    through an explicit world.  A computation returns a value or throws an
    [Error] with a message. *)

Module Runtime.

Inductive Result (A : Type) :=
| Ok (a : A)
| Throw (message : str).

Arguments Ok {A} a.
Arguments Throw {A} message.

Record World := {
  regexps : list nat;        (* [lastIndex] of each RegExp object *)
  services : list Options;   (* options of each TurndownService *)
  requests : list str        (* URLs fetched so far *)
}.

Definition M (A : Type) : Type := World -> Result A * World.

Definition ret {A : Type} (a : A) : M A := fun w => (Ok a, w).

Definition throw {A : Type} (message : str) : M A :=
  fun w => (Throw message, w).

Definition bind {A B : Type} (m : M A) (k : A -> M B) : M B :=
  fun w =>
    match m w with
    | (Ok a, w') => k a w'
    | (Throw e, w') => (Throw e, w')
    end.

(** [try { m } catch (error) { handler error.message }]. *)
Definition try_catch {A : Type} (m : M A) (handler : str -> M A) : M A :=
  fun w =>
    match m w with
    | (Ok a, w') => (Ok a, w')
    | (Throw e, w') => handler e w'
    end.

Definition lift {A : Type} (r : Result A) : M A := fun w => (r, w).

(** Evaluating a regular expression literal creates a fresh object whose
    [lastIndex] is zero. *)
Definition new_RegExp : M nat :=
  fun w =>
    (Ok (length (regexps w)),
     {| regexps := regexps w ++ [0];
        services := services w;
        requests := requests w |}).

Fixpoint set_nth (i : nat) (v : nat) (l : list nat) : list nat :=
  match l, i with
  | [], _ => []
  | _ :: l', O => v :: l'
  | x :: l', S j => x :: set_nth j v l'
  end.

(** [String.prototype.replace] with a global regular expression resets
    [lastIndex] to zero before it scans, and leaves it at zero. *)
Definition string_replace (rx : nat) (rule : str -> option (str * nat))
    (s : str) : M str :=
  fun w =>
    (Ok (replace_all rule s),
     {| regexps := set_nth rx 0 (regexps w);
        services := services w;
        requests := requests w |}).

Definition new_TurndownService (o : Options) : M nat :=
  fun w =>
    (Ok (length (services w)),
     {| regexps := regexps w;
        services := services w ++ [o];
        requests := requests w |}).

End Runtime.

Import Runtime.

Declare Scope js_scope.
Delimit Scope js_scope with js.
Notation "x <- m ;; k" := (bind m (fun x => k))
  (at level 61, m at next level, right associativity) : js_scope.
Open Scope js_scope.

(** ** [src/data_processing.ts] and [src/index.ts] *)

Module Scraper.

(** The responses of [fetch], of the [JSDOM] constructor and of
    [Readability.parse], as far as the scraper reads them. *)
Record Response := {
  ok : bool;
  status : N;
  text : Result str
}.

Inductive FetchOutcome :=
| Rejected (message : str)
| Resolved (r : Response).

(** [article.content] is a string, or [null]. *)
Record Article := { content : option str }.

Record ToolResult := {
  content_text : str;
  isError : bool
}.

Section Collaborators.

(** The conversion a [TurndownService] performs, as a function of the
    options the service was built with and of the HTML it is given.  The
    [turndown] package is a dependency, not part of the sources. *)
Variable converter : Options -> str -> str.

(** The network: the outcome of a request may depend on how many requests
    were sent before it. *)
Variable fetch : str -> nat -> FetchOutcome.

(** [new JSDOM(html, { url, ... })] and [new Readability(doc).parse()]. *)
Variable Document : Type.
Variable jsdom : str -> str -> Result Document.
Variable readability_parse : Document -> Result (option Article).

(** [service.turndown(input)]: the service converts the input with the
    options it was built with.  Services are never removed from the world,
    so the handle [htmlToMarkdown] has just obtained always denotes one. *)
Definition turndown (service : nat) (input : str) : M str :=
  fun w =>
    match nth_error (services w) service with
    | Some o => (Ok (converter o input), w)
    | None => (Throw (lit "not a TurndownService"), w)
    end.

Definition turndown_options : Options :=
  {| codeBlockStyle := Fenced; emDelimiter := lit "_" |}.

(** [htmlToMarkdown] of [src/data_processing.ts]. *)
Definition htmlToMarkdown (html : str) : M str :=
  rx <- new_RegExp ;;
  cleanHtml <- string_replace rx Sanitizer.script_rule html ;;
  turndownService <- new_TurndownService turndown_options ;;
  turndown turndownService cleanHtml.

Definition do_fetch (url : str) : M Response :=
  fun w =>
    let w' := {| regexps := regexps w;
                 services := services w;
                 requests := requests w ++ [url] |} in
    match fetch url (length (requests w)) with
    | Rejected e => (Throw e, w')
    | Resolved r => (Ok r, w')
    end.

(** [!article || !article.content]: [null] and the empty string are
    falsy. *)
Definition usable_content (article : option Article) : option str :=
  match article with
  | None => None
  | Some a =>
      match content a with
      | None => None
      | Some [] => None
      | Some c => Some c
      end
  end.

(** [scrapeToMarkdown] of [src/index.ts].  The content type it reads from
    the headers of the response is not used afterwards and is left out. *)
Definition scrapeToMarkdown (url : str) : M str :=
  try_catch
    (response <- do_fetch url ;;
     if negb (ok response) then
       throw (lit "Failed to fetch URL: " ++ decimal (status response))
     else
       htmlContent <- lift (text response) ;;
       dom <- lift (jsdom htmlContent url) ;;
       article <- lift (readability_parse dom) ;;
       match usable_content article with
       | None => throw (lit "Failed to parse article content")
       | Some c =>
           markdown <- htmlToMarkdown c ;;
           ret (Classifier.classify markdown)
       end)
    (fun message => throw (lit "Scraping error: " ++ message)).

(** The handler of the [scrape-to-markdown] tool: it never throws. *)
Definition scrape_tool (url : str) : World -> ToolResult * World :=
  fun w =>
    match scrapeToMarkdown url w with
    | (Ok markdown, w') =>
        ({| content_text := markdown; isError := false |}, w')
    | (Throw message, w') =>
        ({| content_text := lit "Error: " ++ message; isError := true |}, w')
    end.

End Collaborators.

End Scraper.

Import Classifier Sanitizer Scraper.

(** ** [htmlToMarkdown] and the state of its objects

    Whether anything is carried from one call of [htmlToMarkdown] to the
    next is a question about the two objects a call works with: the
    regular expression, which holds a [lastIndex], and the
    [TurndownService], which holds whatever the library keeps in it (its
    options, its rules, what earlier conversions left there).  Here the
    service has a state of its own: the constructor yields the initial
    state for the options, and a conversion reads the state of the service
    it is called on, may change it, and may throw.  With a service that
    keeps nothing but its options this is [Scraper.htmlToMarkdown]. *)

Module Objects.

Section Service.

Variable ServiceState : Type.

(** [new TurndownService(options)] and [service.turndown(input)]. *)
Variable construct : Options -> ServiceState.
Variable convert_with : ServiceState -> str -> Result str * ServiceState.

Record Heap := {
  lastIndex : list nat;             (* of each RegExp object *)
  service : list ServiceState       (* of each TurndownService *)
}.

Fixpoint update {A : Type} (i : nat) (v : A) (l : list A) : list A :=
  match l, i with
  | [], _ => []
  | _ :: l', O => v :: l'
  | x :: l', S j => x :: update j v l'
  end.

Definition new_RegExp (h : Heap) : nat * Heap :=
  (length (lastIndex h),
   {| lastIndex := lastIndex h ++ [0]; service := service h |}).

(** [String.prototype.replace] with a global regular expression sets
    [lastIndex] to zero before it scans, and leaves it at zero. *)
Definition string_replace (rx : nat) (rule : str -> option (str * nat))
    (s : str) (h : Heap) : str * Heap :=
  (replace_all rule s,
   {| lastIndex := update rx 0 (lastIndex h); service := service h |}).

Definition new_TurndownService (o : Options) (h : Heap) : nat * Heap :=
  (length (service h),
   {| lastIndex := lastIndex h; service := service h ++ [construct o] |}).

(** A conversion works on the service it is called on. *)
Definition turndown (handle : nat) (input : str) (h : Heap)
  : Result str * Heap :=
  match nth_error (service h) handle with
  | Some state =>
      let (result, state') := convert_with state input in
      (result,
       {| lastIndex := lastIndex h;
          service := update handle state' (service h) |})
  | None => (Throw (lit "not a TurndownService"), h)
  end.

(** [htmlToMarkdown] of [src/data_processing.ts]. *)
Definition htmlToMarkdown (html : str) (h : Heap) : Result str * Heap :=
  let (rx, h1) := new_RegExp h in
  let (cleanHtml, h2) := string_replace rx Sanitizer.script_rule html h1 in
  let (turndownService, h3) := new_TurndownService turndown_options h2 in
  turndown turndownService cleanHtml h3.

End Service.

End Objects.

(** ** Console and file system

    The weather tools and the command line write to the console and to
    files.  These effects are kept beside the world of the scraper: the
    lines printed with [console.log], the arguments of each
    [console.error] call (an [Error] argument is kept as its message), the
    paths read and the files written. *)

Module Process.

Record Io := {
  net : World;
  console_log : list str;
  console_error : list (list str);
  files_read : list str;
  files_written : list (str * str)
}.

Definition set_net (w : World) (io : Io) : Io :=
  {| net := w;
     console_log := console_log io;
     console_error := console_error io;
     files_read := files_read io;
     files_written := files_written io |}.

Definition log_line (line : str) (io : Io) : Io :=
  {| net := net io;
     console_log := console_log io ++ [line];
     console_error := console_error io;
     files_read := files_read io;
     files_written := files_written io |}.

Definition log_error (args : list str) (io : Io) : Io :=
  {| net := net io;
     console_log := console_log io;
     console_error := console_error io ++ [args];
     files_read := files_read io;
     files_written := files_written io |}.

Definition note_read (path : str) (io : Io) : Io :=
  {| net := net io;
     console_log := console_log io;
     console_error := console_error io;
     files_read := files_read io ++ [path];
     files_written := files_written io |}.

Definition note_written (path data : str) (io : Io) : Io :=
  {| net := net io;
     console_log := console_log io;
     console_error := console_error io;
     files_read := files_read io;
     files_written := files_written io ++ [(path, data)] |}.

(** [x || d] on an optional string: [undefined], [null] and the empty
    string are falsy. *)
Definition or_else (x : option str) (d : str) : str :=
  match x with
  | Some (c :: s) => c :: s
  | _ => d
  end.

End Process.

Import Process.

(** ** The weather tools of [src/index.ts]

    The data of the National Weather Service is taken at the interface
    types the source declares for it; a number of a response is of an
    abstract type, printed by the collaborator [number_to_string]. *)

Module Weather.

Definition NWS_API_BASE : str := lit "https://api.weather.gov".

Record AlertProperties := {
  event : option str;
  areaDesc : option str;
  severity : option str;
  alert_status : option str;   (* the field [status] of the source *)
  headline : option str
}.

Record AlertFeature := { alert_properties : AlertProperties }.

Record AlertsResponse := { features : option (list AlertFeature) }.

Record PointsProperties := { forecast : option str }.

Record PointsResponse := { points_properties : option PointsProperties }.

(** [formatAlert]. *)
Definition formatAlert (feature : AlertFeature) : str :=
  let props := alert_properties feature in
  intercalate [nl]
    [ lit "Event: " ++ or_else (event props) (lit "Unknown");
      lit "Area: " ++ or_else (areaDesc props) (lit "Unknown");
      lit "Severity: " ++ or_else (severity props) (lit "Unknown");
      lit "Status: " ++ or_else (alert_status props) (lit "Unknown");
      lit "Headline: " ++ or_else (headline props) (lit "No headline");
      lit "---" ].

Section Service.

Variable fetch : str -> nat -> FetchOutcome.

(** [String.prototype.toUpperCase], which follows the case mappings of
    Unicode. *)
Variable toUpperCase : str -> str.

(** Numbers: the coordinates of a request and the temperature of a
    forecast period. *)
Variable Number : Type.
Variable toFixed4 : Number -> str.
Variable number_to_string : Number -> str.
Variable number_truthy : Number -> bool.

Record ForecastPeriod := {
  name : option str;
  temperature : option Number;
  temperatureUnit : option str;
  windSpeed : option str;
  windDirection : option str;
  shortForecast : option str
}.

Record ForecastProperties := { periods : option (list ForecastPeriod) }.

Record ForecastResponse := {
  forecast_properties : option ForecastProperties
}.

(** [makeNWSRequest]: [decode] is [response.json()] on the text of the
    response; it fails on text that is not JSON, and yields [None] on a
    JSON value that is falsy.  Every failure is logged and turned into
    [null]. *)
Definition makeNWSRequest {T : Type} (decode : str -> Result (option T))
    (url : str) : Io -> option T * Io :=
  fun io =>
    let failed (message : str) (io' : Io) :=
      (@None T,
       log_error [lit "Error making NWS request:"; message] io') in
    match do_fetch fetch url (net io) with
    | (Throw e, w) => failed e (set_net w io)
    | (Ok response, w) =>
        if negb (ok response) then
          failed (lit "HTTP error! status: " ++ decimal (status response))
                 (set_net w io)
        else
          match text response with
          | Throw e => failed e (set_net w io)
          | Ok body =>
              match decode body with
              | Throw e => failed e (set_net w io)
              | Ok data => (data, set_net w io)
              end
          end
    end.

Variable decode_alerts : str -> Result (option AlertsResponse).
Variable decode_points : str -> Result (option PointsResponse).
Variable decode_forecast : str -> Result (option ForecastResponse).

(** The handler of the [get-alerts] tool; it returns the text of its
    answer. *)
Definition get_alerts (state : str) : Io -> str * Io :=
  fun io =>
    let stateCode := toUpperCase state in
    let alertsUrl := NWS_API_BASE ++ lit "/alerts?area=" ++ stateCode in
    match makeNWSRequest decode_alerts alertsUrl io with
    | (None, io') => (lit "Failed to retrieve alerts data", io')
    | (Some alertsData, io') =>
        let features :=
          match features alertsData with
          | Some l => l
          | None => []
          end in
        match features with
        | [] => (lit "No active alerts for " ++ stateCode, io')
        | _ =>
            let formattedAlerts := List.map formatAlert features in
            (lit "Active alerts for " ++ stateCode ++ lit ":" ++ [nl; nl]
             ++ intercalate [nl] formattedAlerts, io')
        end
    end.

(** The text of one forecast period. *)
Definition format_period (period : ForecastPeriod) : str :=
  intercalate [nl]
    [ or_else (name period) (lit "Unknown") ++ lit ":";
      lit "Temperature: "
      ++ match temperature period with
         | Some t =>
             if number_truthy t then number_to_string t else lit "Unknown"
         | None => lit "Unknown"
         end
      ++ [194%N; 176%N] ++ or_else (temperatureUnit period) (lit "F");
      lit "Wind: " ++ or_else (windSpeed period) (lit "Unknown")
      ++ lit " " ++ or_else (windDirection period) [];
      or_else (shortForecast period) (lit "No forecast available");
      lit "---" ].

(** The handler of the [get-forecast] tool. *)
Definition get_forecast (latitude longitude : Number) : Io -> str * Io :=
  fun io =>
    let pointsUrl :=
      NWS_API_BASE ++ lit "/points/" ++ toFixed4 latitude ++ lit ","
      ++ toFixed4 longitude in
    match makeNWSRequest decode_points pointsUrl io with
    | (None, io1) =>
        (lit "Failed to retrieve grid point data for coordinates: "
         ++ number_to_string latitude ++ lit ", "
         ++ number_to_string longitude
         ++ lit ". This location may not be supported by the NWS API (only US locations are supported).",
         io1)
    | (Some pointsData, io1) =>
        let forecastUrl :=
          match points_properties pointsData with
          | Some p => or_else (forecast p) []
          | None => []
          end in
        match forecastUrl with
        | [] => (lit "Failed to get forecast URL from grid point data", io1)
        | _ =>
            match makeNWSRequest decode_forecast forecastUrl io1 with
            | (None, io2) => (lit "Failed to retrieve forecast data", io2)
            | (Some forecastData, io2) =>
                let periods :=
                  match forecast_properties forecastData with
                  | Some p =>
                      match periods p with
                      | Some l => l
                      | None => []
                      end
                  | None => []
                  end in
                match periods with
                | [] => (lit "No forecast periods available", io2)
                | _ =>
                    let formattedForecast :=
                      List.map format_period periods in
                    (lit "Forecast for " ++ number_to_string latitude
                     ++ lit ", " ++ number_to_string longitude ++ lit ":"
                     ++ [nl; nl] ++ intercalate [nl] formattedForecast,
                     io2)
                end
            end
        end
    end.

End Service.

End Weather.

(** ** The start of the server ([src/index.ts], [main])

    The module ends with a call of [main], so that loading it starts the
    server: [main] awaits [server.connect(transport)] of the SDK and then
    reports on the error console that the server runs; when the connection
    fails, the handler on the call reports the error and ends the process
    with code 1. *)

Module Server.

Definition banner : str := lit "Weather MCP Server running on stdio".

(** [main], from the moment [server.connect] has settled; [connect] is
    the outcome of that call. *)
Definition main (connect : Result unit) : Io -> Result unit * Io :=
  fun io =>
    match connect with
    | Ok _ => (Ok tt, log_error [banner] io)
    | Throw e => (Throw e, io)
    end.

(** [main().catch(...)]: the exit code, when the handler ends the
    process. *)
Definition start (connect : Result unit) : Io -> option N * Io :=
  fun io =>
    match main connect io with
    | (Ok _, io') => (None, io')
    | (Throw e, io') =>
        (Some 1%N, log_error [lit "Fatal error in main():"; e] io')
    end.

End Server.

(** ** The command line ([cli.ts]) *)

Module Cli.

Fixpoint str_eqb (a b : str) : bool :=
  match a, b with
  | [], [] => true
  | x :: a', y :: b' => N.eqb x y && str_eqb a' b'
  | _, _ => false
  end.

(** [Array.prototype.includes] and [indexOf] on the arguments. *)
Definition includes (x : str) (l : list str) : bool :=
  existsb (str_eqb x) l.

Fixpoint indexOf (x : str) (l : list str) : option nat :=
  match l with
  | [] => None
  | y :: l' =>
      if str_eqb y x then Some 0 else option_map S (indexOf x l')
  end.

Definition usage : str :=
  intercalate [nl]
    (List.map lit
       [ "";
         "Usage: scrape <url> [output_file]";
         "   or: scrape --html-file <html_file> [output_file]";
         "  ";
         "Options:";
         "  --help, -h     Show this help message";
         "  --html-file    Convert a local HTML file to Markdown instead of scraping a URL";
         "";
         "Arguments:";
         "  url/html_file  URL to scrape or path to HTML file (required)";
         "  output_file    Output file path (optional, if not provided output is printed to stdout)";
         "    " ]%string).

(** How the process ends: [process.exit(code)], or the end of [runCli]. *)
Inductive Termination :=
| Exited (code : N)
| Returned.

Section Collaborators.

Variable converter : Options -> str -> str.
Variable fetch : str -> nat -> FetchOutcome.
Variable Document : Type.
Variable jsdom : str -> str -> Result Document.
Variable readability_parse : Document -> Result (option Article).

(** [fs.readFile(path, 'utf-8')] and [fs.writeFile(path, data)]. *)
Variable readFile : str -> Result str.
Variable writeFile : str -> str -> Result unit.

(** The body of the outer [try] of [runCli]: conversion, then output. *)
Definition convert_input (htmlFileMode : bool) (targetInput : str)
  : Io -> Result str * Io :=
  fun io =>
    if htmlFileMode then
      let io1 := note_read targetInput io in
      let relabel (e : str) := lit "Error reading HTML file: " ++ e in
      match readFile targetInput with
      | Throw e => (Throw (relabel e), io1)
      | Ok htmlContent =>
          match htmlToMarkdown converter htmlContent (net io1) with
          | (Ok markdown, w) => (Ok markdown, set_net w io1)
          | (Throw e, w) => (Throw (relabel e), set_net w io1)
          end
      end
    else
      match scrapeToMarkdown converter fetch Document jsdom
              readability_parse targetInput (net io) with
      | (r, w) => (r, set_net w io)
      end.

Definition write_output (outputFile : option str) (markdown : str)
  : Io -> Result unit * Io :=
  fun io =>
    match outputFile with
    | Some (c :: p) =>
        let path := c :: p in
        match writeFile path markdown with
        | Ok _ =>
            (Ok tt,
             log_error [lit "Markdown saved to: " ++ path]
               (note_written path markdown io))
        | Throw e => (Throw e, io)
        end
    | _ => (Ok tt, log_line markdown io)
    end.

(** [runCli] on [process.argv.slice(2)]: what the statements of the
    function itself do.  What the rest of the process logs while the
    function waits is added by [cli] below. *)
Definition runCli (args : list str) : Io -> Termination * Io :=
  fun io =>
    if includes (lit "--help") args || includes (lit "-h") args
       || Nat.eqb (length args) 0
    then (Exited 0, log_line usage io)
    else
      let htmlFileMode := includes (lit "--html-file") args in
      let fileArgIndex :=
        match indexOf (lit "--html-file") args with
        | Some i => S i
        | None => 0
        end in
      if htmlFileMode && Nat.leb (length args) fileArgIndex then
        (Exited 1,
         log_error [lit "Error: No HTML file specified after --html-file"] io)
      else
        let first := if htmlFileMode then fileArgIndex else 0 in
        let targetInput := nth first args [] in
        let outputFile := nth_error args (S first) in
        let fail (e : str) (io' : Io) := (Exited 1, log_error [e] io') in
        match convert_input htmlFileMode targetInput io with
        | (Throw e, io1) => fail e io1
        | (Ok markdown, io1) =>
            match write_output outputFile markdown io1 with
            | (Throw e, io2) => fail e io2
            | (Ok _, io2) => (Returned, io2)
            end
        end.

(** The outcome of [server.connect(transport)] in [main] of
    [src/index.ts]. *)
Variable connect : Result unit.

(** The state in which [runCli] waits for the first time, if it gets
    there: the file has been asked for, or the request has been sent. *)
Definition first_await (args : list str) (io : Io) : option Io :=
  if includes (lit "--help") args || includes (lit "-h") args
     || Nat.eqb (length args) 0
  then None
  else
    let htmlFileMode := includes (lit "--html-file") args in
    let fileArgIndex :=
      match indexOf (lit "--html-file") args with
      | Some i => S i
      | None => 0
      end in
    if htmlFileMode && Nat.leb (length args) fileArgIndex then None
    else
      let first := if htmlFileMode then fileArgIndex else 0 in
      let targetInput := nth first args [] in
      Some (if htmlFileMode then note_read targetInput io
            else set_net (snd (do_fetch fetch targetInput (net io))) io).

(** The module [cli.ts] as node runs it.  Its import of [./index.js] loads
    that module first, which calls [main]; [main] stops at its [await],
    and the module goes on to call [runCli].  When [runCli] exits before
    it waits for anything, the process ends there.  Otherwise the rest of
    [main] runs while [runCli] waits for the first time: it logs that the
    server runs, and [runCli] carries on with that line on the error
    console before anything it logs itself; or the connection has failed
    and the handler ends the process. *)
Definition cli (args : list str) : Io -> Termination * Io :=
  fun io =>
    match first_await args io with
    | None => runCli args io
    | Some waiting =>
        match Server.start connect waiting with
        | (Some code, io') => (Exited code, io')
        | (None, _) => runCli args (snd (Server.start connect io))
        end
    end.

End Collaborators.

End Cli.

Definition empty_io : Io :=
  {| net := {| regexps := []; services := []; requests := [] |};
     console_log := []; console_error := [];
     files_read := []; files_written := [] |}.

(** ** Auxiliary notions used by the proofs *)

(** [agree q t]: the patterns [q] and [t] do not contradict each other on
    the positions they share. *)
Fixpoint agree (eq : char -> char -> bool) (q t : str) : bool :=
  match q, t with
  | x :: q', y :: t' => eq x y && agree eq q' t'
  | _, _ => true
  end.

(** No suffix of the pattern [p] that starts at an offset in [from ..] can
    run into a text that begins with [t]. *)
Definition clear_from (eq : char -> char -> bool) (from : nat) (p t : str)
  : bool :=
  forallb (fun k => negb (agree eq (skipn k p) t))
          (seq from (length p - from)).

Definition ticks : str := lit "```".

(** A text starts (ends) clean when its first (last) code unit, if any, is
    not white space. *)
Definition starts_clean (s : str) : bool :=
  match s with
  | [] => true
  | c :: _ => negb (is_space c)
  end.

Fixpoint ends_clean (s : str) : bool :=
  match s with
  | [] => true
  | [c] => negb (is_space c)
  | _ :: s' => ends_clean s'
  end.

(** [calm seen s]: no three newlines in a row in [s], when [seen] newlines
    precede it. *)
Fixpoint calm (seen : nat) (s : str) : bool :=
  match s with
  | [] => true
  | c :: s' =>
      if N.eqb c nl then Nat.ltb seen 2 && calm (S seen) s'
      else calm 0 s'
  end.

Definition no_newline (t : str) : bool :=
  forallb (fun c => negb (N.eqb c nl)) t.

(** A line of visible text: not empty, no newline, no white space at
    either end. *)
Definition visible_line (t : str) : Prop :=
  t <> [] /\ no_newline t = true
  /\ starts_clean t = true /\ ends_clean t = true.

(** A table given by its rows of cells; a cell is a header cell or a data
    cell and has children. *)
Definition cell_node (c : bool * list DocumentNode) : DocumentNode :=
  Element (if fst c then "th" else "td")%string [] (snd c).

Definition cell_text (c : bool * list DocumentNode) : str :=
  concat (List.map textContent (snd c)).

Definition table_of (rows : list (list (bool * list DocumentNode)))
  : DocumentNode :=
  Element "table" []
    (List.map (fun r => Element "tr" [] (List.map cell_node r)) rows).

(** A DOM builder for input without markup: the text as one text node. *)
Definition text_builder (html : str) : list DocumentNode :=
  match html with
  | [] => []
  | _ => [Text html]
  end.

Definition empty_world : World :=
  {| regexps := []; services := []; requests := [] |}.

(** Text without markup: no tag opener, no character reference, and none
    of the code units an HTML parser rewrites (NUL, carriage return). *)
Definition plain_text (t : str) : bool :=
  forallb (fun c => negb (N.eqb c lt_sign) && negb (N.eqb c 38%N)
                    && negb (N.eqb c 0%N) && negb (N.eqb c 13%N)) t.

(** [occurs_ci p s]: the pattern [p] matches somewhere in [s], letter case
    ignored. *)
Fixpoint occurs_ci (p s : str) : bool :=
  match strip_prefix_by eqb_ci p s with
  | Some _ => true
  | None =>
      match s with
      | [] => false
      | _ :: s' => occurs_ci p s'
      end
  end.

(** [spelled p s]: [s] is the pattern [p] in some letter case. *)
Definition spelled (p s : str) : Prop :=
  strip_prefix_by eqb_ci p s = Some [].

(** A word: no white space in it. *)
Definition is_token (w : str) : bool :=
  forallb (fun c => negb (is_space c)) w.

(** [hinted x y]: [y] is [x] with words inserted behind some of its
    backticks. *)
Inductive hinted : str -> str -> Prop :=
| hinted_nil : hinted [] []
| hinted_copy (c : char) (x y : str) :
    hinted x y -> hinted (c :: x) (c :: y)
| hinted_word (w x y : str) :
    is_token w = true -> hinted x y ->
    hinted (backtick :: x) (backtick :: w ++ y).

(** [fires rule s]: the rule matches at some position of [s]. *)
Fixpoint fires (rule : str -> option (str * nat)) (s : str) : bool :=
  match s with
  | [] => false
  | _ :: s' =>
      match rule s with
      | Some _ => true
      | None => fires rule s'
      end
  end.

(** [subseq x y]: [x] is [y] with some code units left out. *)
Inductive subseq : str -> str -> Prop :=
| subseq_nil : subseq [] []
| subseq_keep (c : char) (x y : str) : subseq x y -> subseq (c :: x) (c :: y)
| subseq_drop (c : char) (x y : str) : subseq x y -> subseq x (c :: y).

(** Collaborators for the examples: a network that answers every request
    with the same outcome, a DOM that is the HTML text itself, and an
    extraction that yields the same article for every document. *)
Definition answering (outcome : FetchOutcome) : str -> nat -> FetchOutcome :=
  fun _ _ => outcome.

Definition page (code : N) (body : str) : FetchOutcome :=
  Resolved {| ok := N.leb 200 code && N.ltb code 300;
              status := code; text := Ok body |}.

Definition text_dom : str -> str -> Result str := fun html _ => Ok html.

Definition extracting (article : option Article)
  : str -> Result (option Article) :=
  fun _ => Ok article.

(** [occurs p s]: the text [p] occurs in [s]. *)
Fixpoint occurs (p s : str) : bool :=
  match strip_prefix p s with
  | Some _ => true
  | None =>
      match s with
      | [] => false
      | _ :: s' => occurs p s'
      end
  end.

Definition no_lt (s : str) : bool :=
  forallb (fun c => negb (N.eqb c lt_sign)) s.

Definition no_tick (s : str) : bool :=
  forallb (fun c => negb (N.eqb c backtick)) s.

(** Help is asked for by [--help] or [-h] among the arguments, or by no
    argument at all. *)
Definition help_asked (args : list str) : bool :=
  Cli.includes (lit "--help") args || Cli.includes (lit "-h") args
  || Nat.eqb (length args) 0.

(** A file system for the examples: every read and every write has the
    same outcome. *)
Definition reading (r : Result str) : str -> Result str := fun _ => r.
Definition writing (r : Result unit) : str -> str -> Result unit :=
  fun _ _ => r.

(** Collaborators of the weather tools for the examples: upper case on
    the letters of ASCII, whole numbers for the numbers of a response, and
    decoders that yield the same data for every body. *)
Definition ascii_upper (s : str) : str := List.map upper s.

Definition fixed4 (n : N) : str := decimal n ++ lit ".0000".

Definition nonzero (n : N) : bool := negb (N.eqb n 0).

Definition decoding {T : Type} (data : option T) : str -> Result (option T) :=
  fun _ => Ok data.

Definition no_points : option Weather.PointsResponse := None.

Definition no_forecast : option (Weather.ForecastResponse N) := None.

Definition sample_address : Weather.PointsProperties :=
  {| Weather.forecast := Some (lit "https://api.weather.gov/f") |}.

Definition sample_points : Weather.PointsResponse :=
  {| Weather.points_properties := Some sample_address |}.

Definition sample_period : Weather.ForecastPeriod N :=
  {| Weather.name := Some (lit "Tonight");
     Weather.temperature := Some 0%N;
     Weather.temperatureUnit := None;
     Weather.windSpeed := Some (lit "5 mph");
     Weather.windDirection := Some (lit "NW");
     Weather.shortForecast := Some (lit "Clear") |}.

Definition sample_periods : Weather.ForecastProperties N :=
  {| Weather.periods := Some [sample_period] |}.

Definition sample_forecast : Weather.ForecastResponse N :=
  {| Weather.forecast_properties := Some sample_periods |}.

(** The form the normalizer of the specification aims at: no three
    newlines in a row and no white space at either end. *)
Definition normalized (x : str) : bool :=
  calm 0 x && starts_clean x && ends_clean x.

(** Words of letters and digits of ASCII with single spaces between
    them, the form of the plain text in the repository's test.
    [after_word] tells whether the code unit before belongs to a word. *)
Definition is_alnum (c : char) : bool :=
  (N.leb 48 c && N.leb c 57) || (N.leb 65 c && N.leb c 90)
  || (N.leb 97 c && N.leb c 122).

Fixpoint spaced_from (after_word : bool) (t : str) : bool :=
  match t with
  | [] => after_word
  | c :: t' =>
      if is_alnum c then spaced_from true t'
      else N.eqb c 32 && after_word && spaced_from false t'
  end.

Definition spaced_words (t : str) : bool := spaced_from false t.

(** A conversion for the examples that puts a backslash before every
    underscore. *)
Definition escape_underscore (s : str) : option (str * nat) :=
  match s with
  | 95%N :: _ => Some ([92%N; 95%N], 1)
  | _ => None
  end.

(** A service for the examples that counts its conversions and puts the
    count in front of its output. *)
Definition counting_service (count : nat) (input : str)
  : Result str * nat :=
  (Ok (decimal (N.of_nat count) ++ input), S count).

(** A service that keeps nothing but its options, around a conversion that
    is a function of the options and the input. *)
Definition stateless_service (converter : Options -> str -> str)
    (o : Options) (input : str) : Result str * Options :=
  (Ok (converter o input), o).

(** * Proofs *)

(** ** Prefix matching *)

Section Prefix.

Variable eq : char -> char -> bool.

Lemma strip_prefix_by_length (p s r : str) :
  strip_prefix_by eq p s = Some r -> length s = length p + length r.
Proof.
  revert s; induction p as [|x p IH]; intros s H; simpl in *.
  - now inversion H.
  - destruct s as [|y s]; [discriminate|].
    destruct (eq x y); [|discriminate].
    simpl; f_equal; now apply IH.
Qed.

Lemma strip_prefix_by_extend (p s r b : str) :
  strip_prefix_by eq p s = Some r ->
  strip_prefix_by eq p (s ++ b) = Some (r ++ b).
Proof.
  revert s; induction p as [|x p IH]; intros s H; simpl in *.
  - now inversion H.
  - destruct s as [|y s]; [discriminate|]; simpl.
    destruct (eq x y); [now apply IH | discriminate].
Qed.

Lemma strip_prefix_by_agree (q t b r : str) :
  strip_prefix_by eq q (t ++ b) = Some r -> agree eq q t = true.
Proof.
  revert t; induction q as [|x q IH]; intros t H; [reflexivity|].
  destruct t as [|y t]; [reflexivity|]; simpl in *.
  destruct (eq x y); [now apply IH | discriminate].
Qed.

(** A match of [p] on [a ++ t ++ b] that is not a match on [a] alone
    straddles the end of [a]: some suffix of [p] runs into [t]. *)
Lemma strip_prefix_by_straddle (p a t b r : str) :
  strip_prefix_by eq p (a ++ t ++ b) = Some r ->
  strip_prefix_by eq p a = None ->
  length a < length p /\ agree eq (skipn (length a) p) t = true.
Proof.
  revert a; induction p as [|x p IH]; intros a H Hn; simpl in *.
  - discriminate.
  - destruct a as [|y a]; simpl in *.
    + split; [lia|]. apply (@strip_prefix_by_agree (x :: p) t b r).
      exact H.
    + destruct (eq x y); [|discriminate].
      destruct (IH a H Hn) as [Hl Ha]. split; [lia | exact Ha].
Qed.

Lemma clear_from_spec (from : nat) (p t : str) (k : nat) :
  clear_from eq from p t = true -> from <= k -> k < length p ->
  agree eq (skipn k p) t = false.
Proof.
  unfold clear_from; intros H Hk Hl.
  rewrite forallb_forall in H.
  specialize (H k). rewrite in_seq in H.
  apply negb_true_iff, H. lia.
Qed.

(** Matching [p] in front of a text that begins with [t] only looks at what
    precedes the text, when no proper suffix of [p] can run into [t]. *)
Lemma strip_prefix_by_local (p a t b : str) :
  clear_from eq 1 p t = true -> a <> [] ->
  strip_prefix_by eq p (a ++ t ++ b) =
  option_map (fun r => r ++ t ++ b) (strip_prefix_by eq p a).
Proof.
  intros Hc Ha.
  destruct (strip_prefix_by eq p a) as [r|] eqn:E; simpl.
  - now apply strip_prefix_by_extend.
  - destruct (strip_prefix_by eq p (a ++ t ++ b)) as [r|] eqn:E'; [|reflexivity].
    destruct (strip_prefix_by_straddle _ _ _ _ _ E' E) as [Hl Hg].
    rewrite (@clear_from_spec 1 p t (length a)) in Hg; try assumption.
    + discriminate.
    + destruct a; [congruence | simpl; lia].
Qed.


End Prefix.

Lemma strip_prefix_exact (p s r : str) :
  strip_prefix p s = Some r -> s = p ++ r.
Proof.
  unfold strip_prefix.
  revert s; induction p as [|x p IH]; intros s H; simpl in *.
  - now inversion H.
  - destruct s as [|y s]; [discriminate|].
    destruct (N.eqb_spec x y); [|discriminate].
    subst; f_equal; now apply IH.
Qed.


Lemma take_drop_while (f : char -> bool) (s : str) :
  take_while f s ++ drop_while f s = s.
Proof.
  induction s as [|c s IH]; simpl; [reflexivity|].
  destruct (f c); simpl; [now rewrite IH | reflexivity].
Qed.



Lemma take_while_forallb (f : char -> bool) (s : str) :
  forallb f (take_while f s) = true.
Proof.
  induction s as [|c s IH]; simpl; [reflexivity|].
  destruct (f c) eqn:E; simpl; [now rewrite E | reflexivity].
Qed.

(** ** Global replacement *)

Section ReplaceFacts.

Variable matcher : str -> option (str * nat).

Lemma replace_from_skipn (k : nat) (s : str) :
  replace_from matcher k s = replace_all matcher (skipn k s).
Proof.
  revert k; induction s as [|c s IH]; intros [|k]; try reflexivity.
  simpl. apply IH.
Qed.

Lemma replace_all_miss (c : char) (s : str) :
  matcher (c :: s) = None ->
  replace_all matcher (c :: s) = c :: replace_all matcher s.
Proof.
  intros H. unfold replace_all; simpl. now rewrite H.
Qed.

Lemma replace_all_match (c : char) (s rep : str) (len : nat) :
  matcher (c :: s) = Some (rep, len) -> 1 <= len ->
  replace_all matcher (c :: s) =
  rep ++ replace_all matcher (skipn len (c :: s)).
Proof.
  intros H Hl. unfold replace_all at 1; simpl. rewrite H.
  rewrite replace_from_skipn.
  destruct len as [|len]; [lia | reflexivity].
Qed.

Lemma replace_all_match_ne (s rep : str) (len : nat) :
  s <> [] -> matcher s = Some (rep, len) -> 1 <= len ->
  replace_all matcher s = rep ++ replace_all matcher (skipn len s).
Proof.
  destruct s as [|c s]; [congruence|]. intros _.
  apply replace_all_match.
Qed.


Section Split.

Variable b : str.

(** The matcher is local in front of [b]: what it does on a text that is
    followed by [b] is what it does on the text alone. *)
Hypothesis matcher_local :
  forall a, a <> [] -> matcher (a ++ b) = matcher a.

Hypothesis matcher_bounded :
  forall s rep len, matcher s = Some (rep, len) -> len <= length s.



End Split.

End ReplaceFacts.

(** ** The two substitution rules *)

Lemma is_space_not_backtick (c : char) : is_space c = true -> c <> backtick.
Proof. intros H ->. discriminate. Qed.




Lemma alt_then_bounded {A : Type} (alts : list str)
    (k : str -> str -> option A) (s : str) (r : A) :
  alt_then alts k s = Some r ->
  exists kw rest, In kw alts /\ s = kw ++ rest /\ k kw rest = Some r.
Proof.
  induction alts as [|a alts IH]; simpl; [discriminate|].
  destruct (strip_prefix a s) as [rest|] eqn:E.
  - destruct (k a rest) as [r'|] eqn:K.
    + intros H; inversion H; subst.
      exists a, rest. repeat split; auto using strip_prefix_exact.
    + intros H; destruct (IH H) as (kw & rest' & Hin & Hs & Hk).
      exists kw, rest'; auto.
  - intros H; destruct (IH H) as (kw & rest' & Hin & Hs & Hk).
    exists kw, rest'; auto.
Qed.













Lemma skipn_app_exact {A : Type} (x y : list A) :
  skipn (length x) (x ++ y) = y.
Proof. induction x; simpl; auto. Qed.

(** Behind a fence and a keyword the second rule asks for white space and
    takes all of it. *)
Lemma py_rule_fence (kw s : str) :
  In kw py_keywords ->
  py_rule (fence ++ kw ++ s) =
  match take_while is_space s with
  | [] => None
  | ws => Some (py_tag ++ kw ++ ws, length (fence ++ kw ++ ws))
  end.
Proof.
  intros Hin. simpl in Hin.
  repeat (destruct Hin as [<-|Hin];
          [unfold py_rule; cbn; destruct (take_while is_space s);
           reflexivity|]).
  destruct Hin.
Qed.















(** ** The script filter *)

Lemma spelled_length (p s : str) : spelled p s -> length s = length p.
Proof.
  intros H. apply strip_prefix_by_length in H. simpl in H. lia.
Qed.

Lemma spelled_prefix (p s rest : str) :
  spelled p s -> strip_prefix_by eqb_ci p (s ++ rest) = Some rest.
Proof.
  intros H. now apply (strip_prefix_by_extend eqb_ci p s [] rest).
Qed.

Lemma eqb_ci_lt_sign (y : char) : eqb_ci lt_sign y = true -> y = lt_sign.
Proof.
  unfold eqb_ci, upper. change (97 <=? lt_sign)%N with false. cbn [andb].
  destruct ((97 <=? y)%N && (y <=? 122)%N) eqn:E; intros H;
    apply N.eqb_eq in H.
  - apply andb_true_iff in E as [E1 E2].
    apply N.leb_le in E1, E2. unfold lt_sign in *. lia.
  - now symmetry.
Qed.

Lemma spelled_head (p s : str) :
  spelled (lt_sign :: p) s -> exists s', s = lt_sign :: s'.
Proof.
  unfold spelled; simpl. destruct s as [|y s]; [discriminate|].
  destruct (eqb_ci lt_sign y) eqn:E; [|discriminate].
  intros _. apply eqb_ci_lt_sign in E. subst. now exists s.
Qed.

Lemma occurs_ci_here (p c s : str) :
  occurs_ci p s = false -> strip_prefix_by eqb_ci p s = None.
Proof.
  destruct s; simpl; destruct (strip_prefix_by eqb_ci p _); congruence.
Qed.

Lemma occurs_ci_tail (p : str) (c : char) (s : str) :
  occurs_ci p (c :: s) = false -> occurs_ci p s = false.
Proof.
  simpl. destruct (strip_prefix_by eqb_ci p (c :: s)); congruence.
Qed.

Lemma script_rule_no_open (s : str) :
  strip_prefix_by eqb_ci script_open s = None -> script_rule s = None.
Proof. unfold script_rule. now intros ->. Qed.

(** Where [<script] does not occur, the filter changes nothing. *)
Lemma cleanHtml_no_script (html : str) :
  occurs_ci script_open html = false -> cleanHtml html = html.
Proof.
  unfold cleanHtml. induction html as [|c s IH]; intros H; [reflexivity|].
  rewrite replace_all_miss.
  - f_equal. apply IH. now apply occurs_ci_tail in H.
  - apply script_rule_no_open. now apply (occurs_ci_here script_open [c]).
Qed.

(** In front of a [<] the filter passes over a text in which [<script]
    does not occur. *)
Lemma cleanHtml_before_tag (pre rest : str) :
  occurs_ci script_open pre = false ->
  cleanHtml (pre ++ lt_sign :: rest) = pre ++ cleanHtml (lt_sign :: rest).
Proof.
  unfold cleanHtml. induction pre as [|c s IH]; intros H; [reflexivity|].
  simpl. rewrite replace_all_miss.
  - f_equal. apply IH. now apply occurs_ci_tail in H.
  - apply script_rule_no_open.
    change (c :: s ++ lt_sign :: rest) with ((c :: s) ++ [lt_sign] ++ rest).
    rewrite strip_prefix_by_local by (reflexivity || discriminate).
    now rewrite (occurs_ci_here script_open [c] _ H).
Qed.

(** The body of the pattern runs to the end of the first closing tag. *)
Lemma script_body_first_close (mid close post : str) :
  occurs_ci script_close mid = false -> spelled script_close close ->
  script_body (mid ++ close ++ post) = Some (length mid + length script_close).
Proof.
  intros Hm Hc.
  destruct (spelled_head _ _ Hc) as (close' & Hclose).
  induction mid as [|c s IH].
  - cbn [app length plus]. rewrite Hclose.
    change ((lt_sign :: close') ++ post) with (lt_sign :: (close' ++ post)).
    cbn [script_body]. rewrite N.eqb_refl.
    change (lt_sign :: close' ++ post) with ((lt_sign :: close') ++ post).
    rewrite <- Hclose. now rewrite spelled_prefix.
  - pose proof (occurs_ci_tail _ _ _ Hm) as Hs.
    assert (Hnone : strip_prefix_by eqb_ci script_close
                      ((c :: s) ++ close ++ post) = None).
    { rewrite Hclose.
      change ((c :: s) ++ (lt_sign :: close') ++ post)
        with ((c :: s) ++ [lt_sign] ++ (close' ++ post)).
      rewrite strip_prefix_by_local by (reflexivity || discriminate).
      now rewrite (occurs_ci_here script_close [c] _ Hm). }
    change ((c :: s) ++ close ++ post) with (c :: (s ++ close ++ post)) in *.
    cbn [script_body]. rewrite Hnone, (IH Hs).
    destruct (N.eqb c lt_sign); reflexivity.
Qed.

(** A script element, from [<script] at a word boundary to the first
    closing tag behind it, is deleted. *)
Lemma cleanHtml_script_span (open mid close post : str) :
  spelled script_open open ->
  boundary_after_word (mid ++ close) = true ->
  occurs_ci script_close mid = false -> spelled script_close close ->
  cleanHtml (open ++ mid ++ close ++ post) = cleanHtml post.
Proof.
  intros Ho Hb Hm Hc.
  destruct (spelled_head _ _ Ho) as (open' & Hopen).
  assert (R : script_rule (open ++ mid ++ close ++ post) =
              Some ([], length (open ++ mid ++ close))).
  { unfold script_rule. rewrite spelled_prefix by assumption.
    replace (boundary_after_word (mid ++ close ++ post)) with true.
    - rewrite script_body_first_close by assumption.
      rewrite !length_app, (spelled_length _ _ Ho), (spelled_length _ _ Hc).
      reflexivity.
    - rewrite <- Hb. rewrite app_assoc.
      destruct (spelled_head _ _ Hc) as (close' & ->).
      destruct mid; reflexivity. }
  assert (Hne : open ++ mid ++ close ++ post <> [])
    by (rewrite Hopen; discriminate).
  unfold cleanHtml.
  rewrite (replace_all_match_ne _ _ _ _ Hne R).
  - replace (open ++ mid ++ close ++ post)
      with ((open ++ mid ++ close) ++ post)
      by now rewrite <- !app_assoc.
    now rewrite skipn_app_exact.
  - subst open; simpl; lia.
Qed.

(** ** The normalizer *)

Lemma calm_collapse (k : nat) (s : str) :
  k <= 2 -> calm k (collapse_from k s) = true.
Proof.
  revert k; induction s as [|c s IH]; intros k Hk; simpl; [reflexivity|].
  destruct (N.eqb c nl) eqn:E.
  - destruct (Nat.ltb_spec k 2) as [Hlt|Hge].
    + simpl. rewrite E. apply andb_true_iff; split.
      * now apply Nat.ltb_lt.
      * apply IH; lia.
    + now apply IH.
  - simpl. rewrite E. apply IH; lia.
Qed.

Lemma collapse_calm (k : nat) (s : str) :
  calm k s = true -> collapse_from k s = s.
Proof.
  revert k; induction s as [|c s IH]; intros k H; simpl in *; [reflexivity|].
  destruct (N.eqb c nl).
  - apply andb_true_iff in H as [H1 H2]. rewrite H1. f_equal. now apply IH.
  - f_equal. now apply IH.
Qed.

Lemma calm_mono (k k' : nat) (s : str) :
  calm k s = true -> k' <= k -> calm k' s = true.
Proof.
  revert k k'; induction s as [|c s IH]; intros k k' H Hk; simpl in *;
    [reflexivity|].
  destruct (N.eqb c nl); [|exact H].
  apply andb_true_iff in H as [H1 H2]. apply Nat.ltb_lt in H1.
  apply andb_true_iff; split.
  - apply Nat.ltb_lt; lia.
  - apply (IH (S k)); [assumption | lia].
Qed.

Lemma calm_suffix (k : nat) (a s : str) :
  calm k (a ++ s) = true -> calm 0 s = true.
Proof.
  revert k; induction a as [|c a IH]; intros k H; simpl in *.
  - apply (calm_mono k); [assumption | lia].
  - destruct (N.eqb c nl).
    + apply andb_true_iff in H as [_ H]. now apply (IH (S k)).
    + now apply (IH 0).
Qed.

Lemma calm_prefix (k : nat) (a s : str) :
  calm k (a ++ s) = true -> calm k a = true.
Proof.
  revert k; induction a as [|c a IH]; intros k H; simpl in *; [reflexivity|].
  destruct (N.eqb c nl).
  - apply andb_true_iff in H as [H1 H2]. rewrite H1. now apply IH.
  - now apply IH.
Qed.

Lemma trimStart_suffix (s : str) : exists a, s = a ++ trimStart s.
Proof.
  exists (take_while is_space s). symmetry. apply take_drop_while.
Qed.

Lemma trimEnd_prefix (s : str) : exists b, s = trimEnd s ++ b.
Proof.
  induction s as [|c s [b IH]]; [now exists []|]. simpl.
  destruct (trimEnd s) as [|x t].
  - destruct (is_space c).
    + now exists (c :: s).
    + exists s. reflexivity.
  - exists b. simpl. now rewrite IH at 1.
Qed.

Lemma starts_clean_trimStart (s : str) : starts_clean (trimStart s) = true.
Proof.
  unfold trimStart. induction s as [|c s IH]; simpl; [reflexivity|].
  destruct (is_space c) eqn:E; [exact IH|]. simpl. now rewrite E.
Qed.

Lemma trimStart_clean (s : str) : starts_clean s = true -> trimStart s = s.
Proof.
  unfold trimStart. destruct s as [|c s]; simpl; [reflexivity|].
  intros H. apply negb_true_iff in H. now rewrite H.
Qed.

Lemma starts_clean_trimEnd (s : str) :
  starts_clean s = true -> starts_clean (trimEnd s) = true.
Proof.
  destruct s as [|c s]; simpl; [reflexivity|].
  intros H. destruct (trimEnd s).
  - apply negb_true_iff in H. rewrite H. simpl. now rewrite H.
  - exact H.
Qed.

Lemma ends_clean_trimEnd (s : str) : ends_clean (trimEnd s) = true.
Proof.
  induction s as [|c s IH]; simpl; [reflexivity|].
  destruct (trimEnd s) as [|x t] eqn:E.
  - destruct (is_space c) eqn:Ec; simpl; [reflexivity | now rewrite Ec].
  - exact IH.
Qed.

Lemma trimEnd_clean (s : str) : ends_clean s = true -> trimEnd s = s.
Proof.
  induction s as [|c s IH]; [reflexivity|].
  destruct s as [|x s].
  - simpl. intros H. apply negb_true_iff in H. now rewrite H.
  - intros H. change (ends_clean (x :: s) = true) in H.
    specialize (IH H). cbn [trimEnd] in *. now rewrite IH.
Qed.

Lemma trim_clean (s : str) :
  starts_clean s = true -> ends_clean s = true -> trim s = s.
Proof.
  intros H1 H2. unfold trim. rewrite trimStart_clean by assumption.
  now apply trimEnd_clean.
Qed.

Lemma trim_trimmed (s : str) :
  starts_clean (trim s) = true /\ ends_clean (trim s) = true.
Proof.
  unfold trim; split.
  - apply starts_clean_trimEnd, starts_clean_trimStart.
  - apply ends_clean_trimEnd.
Qed.

Lemma calm_trim (s : str) : calm 0 s = true -> calm 0 (trim s) = true.
Proof.
  intros H. unfold trim.
  destruct (trimStart_suffix s) as [a Ha].
  rewrite Ha in H. apply calm_suffix in H.
  destruct (trimEnd_prefix (trimStart s)) as [b Hb].
  rewrite Hb in H. now apply calm_prefix in H.
Qed.

Lemma normalize_calm (x : str) : calm 0 (normalize x) = true.
Proof.
  unfold normalize, collapse_newlines. apply calm_trim, calm_collapse. lia.
Qed.

(** A text that is already in normal form is left as it is. *)
Lemma normalize_fixed (x : str) :
  calm 0 x = true -> starts_clean x = true -> ends_clean x = true ->
  normalize x = x.
Proof.
  intros Hc H1 H2. unfold normalize, collapse_newlines.
  rewrite collapse_calm by assumption. now apply trim_clean.
Qed.

Lemma normalize_idem (x : str) : normalize (normalize x) = normalize x.
Proof.
  apply normalize_fixed.
  - apply normalize_calm.
  - apply trim_trimmed.
  - apply trim_trimmed.
Qed.


(** A piece that ends in a code unit other than a newline resets the
    count. *)
Lemma collapse_from_app (k : nat) (a s : str) :
  a <> [] -> last a 0%N <> nl ->
  collapse_from k (a ++ s) = collapse_from k a ++ collapse_from 0 s.
Proof.
  revert k; induction a as [|c a IH]; intros k Hne Hl; [congruence|].
  destruct a as [|x a].
  - simpl in *. apply N.eqb_neq in Hl. now rewrite Hl.
  - assert (Hx : x :: a <> []) by discriminate.
    change (last (c :: x :: a) 0%N) with (last (x :: a) 0%N) in Hl.
    remember (x :: a) as y eqn:Ey. simpl.
    destruct (N.eqb c nl); [destruct (Nat.ltb k 2)|];
      rewrite IH by assumption; reflexivity.
Qed.

Lemma collapse_from_saturated (m : nat) (b : str) :
  collapse_from 2 (repeat nl m ++ b) = collapse_from 2 b.
Proof. induction m; simpl; auto. Qed.

Lemma collapse_from_fresh (k : nat) (b : str) :
  hd 0%N b <> nl -> collapse_from k b = collapse_from 0 b.
Proof.
  destruct b as [|c b]; simpl; [reflexivity|].
  intros H. apply N.eqb_neq in H. now rewrite H.
Qed.

(** A run of three or more newlines becomes exactly two. *)
Lemma collapse_run (a b : str) (n : nat) :
  3 <= n -> last a 0%N <> nl -> hd 0%N b <> nl ->
  collapse_newlines (a ++ repeat nl n ++ b) =
  collapse_newlines a ++ [nl; nl] ++ collapse_newlines b.
Proof.
  intros Hn Ha Hb. unfold collapse_newlines.
  assert (R : collapse_from 0 (repeat nl n ++ b) =
              [nl; nl] ++ collapse_from 0 b).
  { destruct n as [|[|n]]; try lia. simpl.
    now rewrite collapse_from_saturated, (collapse_from_fresh 2). }
  destruct a as [|c a]; [exact R|].
  rewrite collapse_from_app by (assumption || discriminate).
  now rewrite R.
Qed.

(** ** Blocks and lines under the normalizer *)

Lemma collapse_line (k : nat) (t s : str) :
  t <> [] -> no_newline t = true ->
  collapse_from k (t ++ s) = t ++ collapse_from 0 s.
Proof.
  revert k; induction t as [|c t IH]; intros k Hne Hn; [congruence|].
  simpl in Hn. apply andb_true_iff in Hn as [Hc Ht].
  apply negb_true_iff in Hc. simpl. rewrite Hc. f_equal.
  destruct t as [|x t]; [reflexivity|].
  apply IH; [discriminate | assumption].
Qed.

Lemma trimEnd_spaces (w : str) : forallb is_space w = true -> trimEnd w = [].
Proof.
  induction w as [|c w IH]; simpl; [reflexivity|].
  intros H. apply andb_true_iff in H as [Hc Hw].
  now rewrite IH, Hc.
Qed.

Lemma trimEnd_app_spaces (a w : str) :
  forallb is_space w = true -> trimEnd (a ++ w) = trimEnd a.
Proof.
  intros H. induction a as [|c a IH]; simpl.
  - now apply trimEnd_spaces.
  - now rewrite IH.
Qed.

Lemma trimEnd_app (a b : str) :
  trimEnd b <> [] -> trimEnd (a ++ b) = a ++ trimEnd b.
Proof.
  intros H. induction a as [|c a IH]; simpl; [reflexivity|].
  rewrite IH. destruct (a ++ trimEnd b) eqn:E; [|reflexivity].
  apply app_eq_nil in E as [_ E]. congruence.
Qed.


Lemma starts_clean_app (a b : str) :
  a <> [] -> starts_clean a = true -> starts_clean (a ++ b) = true.
Proof. destruct a; [congruence | auto]. Qed.


Lemma no_newline_calm (k : nat) (t : str) :
  no_newline t = true -> calm k t = true.
Proof.
  revert k; induction t as [|c t IH]; intros k H; simpl in *; [reflexivity|].
  apply andb_true_iff in H as [Hc Ht]. apply negb_true_iff in Hc.
  rewrite Hc. now apply IH.
Qed.






(** ** The serializer *)






(** C8.  Emphasis is wrapped in single underscores, strong text in double
    asterisks, and strong emphasis in both, for every text. *)
Theorem emphasis_delimiters :
  forall (d : nat) (attrs attrs' : list (string * str)) (x : str),
    serialize turndown_options d (Element "em" attrs [Text x])
    = lit "_" ++ x ++ lit "_"
    /\ serialize turndown_options d (Element "strong" attrs [Text x])
       = lit "**" ++ x ++ lit "**"
    /\ serialize turndown_options d
         (Element "strong" attrs [Element "em" attrs' [Text x]])
       = lit "**_" ++ x ++ lit "_**".
Proof.
  intros d attrs attrs' x. cbn. rewrite !app_nil_r.
  repeat split. now rewrite <- !app_assoc.
Qed.

(** ** Tables *)

Lemma serialize_cell (o : Options) (d : nat) (c : bool * list DocumentNode) :
  serialize o d (cell_node c) = block (cell_text c).
Proof. destruct c as [[|] kids]; reflexivity. Qed.

Lemma serialize_row (o : Options) (d : nat)
    (r : list (bool * list DocumentNode)) :
  serialize o d (Element "tr" [] (List.map cell_node r)) =
  block (concat (List.map (fun c => block (cell_text c)) r)).
Proof.
  cbn [serialize]. change (rule_for o "tr") with GenericBlock. cbv iota.
  rewrite map_map. f_equal. f_equal.
  apply map_ext. intros c. apply serialize_cell.
Qed.

Lemma serialize_table (o : Options)
    (rows : list (list (bool * list DocumentNode))) :
  serialize o 0 (table_of rows) =
  block (concat (List.map
    (fun r => block (concat (List.map (fun c => block (cell_text c)) r)))
    rows)).
Proof.
  unfold table_of. cbn [serialize].
  change (rule_for o "table") with GenericBlock. cbv iota.
  rewrite map_map. f_equal. f_equal.
  apply map_ext. intros r. apply serialize_row.
Qed.

(** After a blank line, further newlines are dropped and a visible line is
    kept with the blank line behind it. *)
Lemma collapse_blank (s : str) :
  collapse_from 2 (blank_line ++ s) = collapse_from 2 s.
Proof. reflexivity. Qed.

Lemma collapse_paragraph (t s : str) :
  visible_line t ->
  collapse_from 2 (block t ++ s) = t ++ blank_line ++ collapse_from 2 s.
Proof.
  intros (Hne & Hn & _ & _). unfold block.
  rewrite <- !app_assoc, collapse_blank.
  now rewrite collapse_line.
Qed.

Lemma collapse_cells (cells : list str) (s : str) :
  Forall visible_line cells ->
  collapse_from 2 (concat (List.map block cells) ++ s) =
  concat (List.map (fun t => t ++ blank_line) cells) ++ collapse_from 2 s.
Proof.
  induction 1 as [|t cells Ht _ IH]; cbn [List.map concat app];
    [reflexivity|].
  rewrite <- !app_assoc. rewrite collapse_paragraph by assumption.
  now rewrite IH.
Qed.

Lemma collapse_rows (rows : list (list str)) (s : str) :
  Forall (Forall visible_line) rows ->
  collapse_from 2
    (concat (List.map (fun r => block (concat (List.map block r))) rows) ++ s)
  = concat (List.map (fun t => t ++ blank_line) (concat rows))
    ++ collapse_from 2 s.
Proof.
  induction 1 as [|r rows Hr _ IH]; cbn [List.map concat app];
    [reflexivity|].
  unfold block at 1. rewrite <- !app_assoc, collapse_blank.
  rewrite collapse_cells by assumption.
  rewrite collapse_blank, IH.
  now rewrite map_app, concat_app, <- app_assoc.
Qed.

Lemma trimEnd_paragraphs (cells : list str) :
  Forall visible_line cells ->
  trimEnd (concat (List.map (fun t => t ++ blank_line) cells)) =
  intercalate blank_line cells.
Proof.
  induction 1 as [|t cells (Hne & _ & _ & He) Hall IH]; [reflexivity|].
  cbn [List.map concat]. destruct cells as [|u cells].
  - cbn [List.map concat intercalate]. rewrite app_nil_r.
    rewrite trimEnd_app_spaces by reflexivity. now apply trimEnd_clean.
  - assert (Hi : trimEnd (concat
                 (List.map (fun t => t ++ blank_line) (u :: cells))) <> []).
    { rewrite IH. inversion Hall as [|? ? (Hu & _) _]; subst.
      destruct u; [congruence|]. destruct cells; discriminate. }
    assert (Hb : trimEnd (blank_line ++ concat
                 (List.map (fun t => t ++ blank_line) (u :: cells))) <> []).
    { rewrite trimEnd_app by exact Hi. discriminate. }
    rewrite <- app_assoc.
    rewrite (trimEnd_app t) by exact Hb.
    rewrite (trimEnd_app blank_line) by exact Hi.
    now rewrite IH.
Qed.

Lemma trimStart_paragraphs (cells : list str) :
  Forall visible_line cells ->
  starts_clean (concat (List.map (fun t => t ++ blank_line) cells)) = true.
Proof.
  destruct 1 as [|t cells (Hne & _ & Hs & _) _]; [reflexivity|].
  cbn [List.map concat]. rewrite <- app_assoc.
  now apply starts_clean_app.
Qed.

Lemma normalize_rows (rows : list (list str)) :
  Forall (Forall visible_line) rows ->
  normalize
    (block (concat (List.map
       (fun r => block (concat (List.map block r))) rows)))
  = intercalate blank_line (concat rows).
Proof.
  intros H. unfold normalize, collapse_newlines, block at 1.
  change (collapse_from 0 (blank_line ++ ?x))
    with (blank_line ++ collapse_from 2 x).
  rewrite collapse_rows by assumption.
  change (collapse_from 2 blank_line) with (@nil char).
  rewrite app_nil_r. unfold trim.
  assert (Hall : Forall visible_line (concat rows)).
  { apply Forall_concat. exact H. }
  change (trimStart (blank_line ++ ?x)) with (trimStart x).
  rewrite trimStart_clean by now apply trimStart_paragraphs.
  now apply trimEnd_paragraphs.
Qed.

Lemma in_intercalate (c : char) (sep : str) (l : list str) :
  In c (intercalate sep l) -> In c sep \/ exists x, In x l /\ In c x.
Proof.
  induction l as [|x l IH]; [intros []|].
  destruct l as [|y l].
  - simpl. intros H. right. exists x. auto.
  - change (intercalate sep (x :: y :: l))
      with (x ++ sep ++ intercalate sep (y :: l)).
    rewrite !in_app_iff. intros [H | [H | H]].
    + right. exists x. split; [now left | assumption].
    + now left.
    + destruct (IH H) as [Hs | (z & Hz & Hc)]; [now left|].
      right. exists z. split; [now right | assumption].
Qed.

Lemma convert_table (o : Options)
    (rows : list (list (bool * list DocumentNode))) :
  Forall (Forall (fun c => visible_line (cell_text c))) rows ->
  convert o [table_of rows] =
  intercalate blank_line (List.map cell_text (concat rows)).
Proof.
  intros H. unfold convert. cbn [List.map concat].
  rewrite app_nil_r, serialize_table.
  rewrite concat_map.
  rewrite <- (normalize_rows (List.map (List.map cell_text) rows)).
  - rewrite (map_map (List.map cell_text)).
    do 3 f_equal. apply map_ext. intros r. now rewrite map_map.
  - apply Forall_map. eapply Forall_impl; [|exact H].
    intros r Hr. now apply Forall_map.
Qed.

(** C7.  A table is flattened: the converted table is the text content of
    its cells, row by row, each on a line of its own with a blank line
    before the next one, so consecutive rows are a blank line apart; only
    the cell texts and newlines are emitted, hence no pipe unless a cell
    holds one. *)
Theorem table_flattened :
  forall (o : Options) (rows : list (list (bool * list DocumentNode))),
    Forall (Forall (fun c => visible_line (cell_text c))) rows ->
    convert o [table_of rows] =
    intercalate blank_line (List.map cell_text (concat rows))
    /\ (Forall (Forall (fun c => ~ In 124%N (cell_text c))) rows ->
        ~ In 124%N (convert o [table_of rows])).
Proof.
  intros o rows H. split; [now apply convert_table|].
  intros Hp Hin. rewrite convert_table in Hin by assumption.
  apply in_intercalate in Hin as [Hb | (x & Hx & Hc)].
  - simpl in Hb. destruct Hb as [Hb | [Hb | []]]; discriminate Hb.
  - apply in_map_iff in Hx as (c & <- & Hcell).
    apply in_concat in Hcell as (r & Hr & Hcr).
    rewrite Forall_forall in Hp. specialize (Hp r Hr).
    rewrite Forall_forall in Hp. exact (Hp c Hcr Hc).
Qed.

(** The table of the repository's test: a row of two header cells and a
    row of two data cells. *)
Lemma table_flattened_witness :
  convert turndown_options
    [table_of [[(true, [Text (lit "Header 1")]);
                (true, [Text (lit "Header 2")])];
               [(false, [Text (lit "Cell 1")]);
                (false, [Text (lit "Cell 2")])]]]
  = lit "Header 1" ++ [nl; nl] ++ lit "Header 2" ++ [nl; nl]
    ++ lit "Cell 1" ++ [nl; nl] ++ lit "Cell 2".
Proof.
  apply (proj1 (table_flattened turndown_options
    [[(true, [Text (lit "Header 1")]); (true, [Text (lit "Header 2")])];
     [(false, [Text (lit "Cell 1")]); (false, [Text (lit "Cell 2")])]]
    ltac:(repeat constructor; discriminate))).
Defined.

(** ** [htmlToMarkdown] *)

Lemma set_nth_fresh (l : list nat) (v : nat) :
  set_nth (length l) v (l ++ [v]) = l ++ [v].
Proof. induction l as [|x l IH]; simpl; [reflexivity | now rewrite IH]. Qed.

Lemma nth_error_fresh (l : list Options) (o : Options) :
  nth_error (l ++ [o]) (length l) = Some o.
Proof. induction l; simpl; auto. Qed.

(** One call: the result is the conversion of the filtered input with the
    options of the source, whatever objects exist already; the call leaves
    one more regular expression and one more service behind and sends no
    request. *)
Lemma htmlToMarkdown_run (converter : Options -> str -> str) (html : str)
    (w : World) :
  htmlToMarkdown converter html w =
  (Ok (converter turndown_options (cleanHtml html)),
   {| regexps := regexps w ++ [0];
      services := services w ++ [turndown_options];
      requests := requests w |}).
Proof.
  unfold htmlToMarkdown, bind, new_RegExp, string_replace,
    new_TurndownService, turndown.
  cbn [regexps services requests].
  now rewrite nth_error_fresh, set_nth_fresh.
Qed.

(** ** Nothing is carried between calls *)

Lemma update_fresh {A : Type} (l : list A) (v v' : A) :
  Objects.update (length l) v' (l ++ [v]) = l ++ [v'].
Proof. induction l as [|x l IH]; simpl; [reflexivity | now rewrite IH]. Qed.

Lemma nth_error_last {A : Type} (l : list A) (v : A) :
  nth_error (l ++ [v]) (length l) = Some v.
Proof. induction l; simpl; auto. Qed.

(** One call: the conversion is done by a service in its initial state;
    the objects that were there before are as they were, and the two
    objects of the call are left behind. *)
Lemma htmlToMarkdown_call (ServiceState : Type)
    (construct : Options -> ServiceState)
    (convert_with : ServiceState -> str -> Result str * ServiceState)
    (html : str) (h : Objects.Heap ServiceState) :
  Objects.htmlToMarkdown ServiceState construct convert_with html h
  = (fst (convert_with (construct turndown_options) (cleanHtml html)),
     {| Objects.lastIndex := Objects.lastIndex ServiceState h ++ [0];
        Objects.service :=
          Objects.service ServiceState h
          ++ [snd (convert_with (construct turndown_options)
                     (cleanHtml html))] |}).
Proof.
  unfold Objects.htmlToMarkdown, Objects.new_RegExp, Objects.string_replace,
    Objects.new_TurndownService, Objects.turndown.
  cbn [Objects.lastIndex Objects.service].
  rewrite nth_error_last.
  destruct (convert_with (construct turndown_options)
              (replace_all script_rule html)) as [result state'] eqn:E.
  unfold cleanHtml. rewrite E. cbn [fst snd].
  now rewrite !update_fresh.
Qed.

(** The state of a service is observable: a conversion on a service that
    has converted before can give another result than the first one did.
    What [htmlToMarkdown] returns does not depend on earlier calls only
    because each call builds its own service. *)
Lemma turndown_shared_service :
  let h := {| Objects.lastIndex := []; Objects.service := [0] |} in
  fst (Objects.turndown nat counting_service 0 (lit "x") h)
  = Ok (lit "0x")
  /\ fst (Objects.turndown nat counting_service 0 (lit "x")
            (snd (Objects.turndown nat counting_service 0 (lit "x") h)))
     = Ok (lit "1x").
Proof. split; reflexivity. Qed.

(** With a service that keeps nothing but its options, the call is the one
    of [Scraper.htmlToMarkdown]. *)
Lemma htmlToMarkdown_stateless (converter : Options -> str -> str)
    (html : str) (h : Objects.Heap Options) (w : World) :
  fst (Objects.htmlToMarkdown Options (fun o => o)
         (stateless_service converter) html h)
  = fst (htmlToMarkdown converter html w).
Proof. now rewrite htmlToMarkdown_call, htmlToMarkdown_run. Qed.

(** C4.  [htmlToMarkdown] is deterministic, and nothing is carried from one
    call to the next: whatever state the regular expressions and the
    services of earlier calls are in, the outcome of a call (the Markdown,
    or the error of the conversion) is the one a service in its initial
    state gives on the filtered input; so it is the same in any two heaps,
    and the same for a second call behind a first one.  A call changes no
    object that existed before it. *)
Theorem htmlToMarkdown_deterministic :
  forall (ServiceState : Type) (construct : Options -> ServiceState)
         (convert_with : ServiceState -> str -> Result str * ServiceState)
         (html : str) (h h' : Objects.Heap ServiceState),
    let call :=
      Objects.htmlToMarkdown ServiceState construct convert_with html in
    fst (call h) = fst (call h')
    /\ fst (call (snd (call h))) = fst (call h)
    /\ fst (call h)
       = fst (convert_with (construct turndown_options) (cleanHtml html))
    /\ (forall i state,
          nth_error (Objects.service ServiceState h) i = Some state ->
          nth_error (Objects.service ServiceState (snd (call h))) i
          = Some state)
    /\ (forall i index,
          nth_error (Objects.lastIndex ServiceState h) i = Some index ->
          nth_error (Objects.lastIndex ServiceState (snd (call h))) i
          = Some index).
Proof.
  intros ServiceState construct convert_with html h h' call. subst call.
  rewrite !htmlToMarkdown_call. cbn [fst snd Objects.service
                                      Objects.lastIndex].
  repeat split.
  - intros i state H. rewrite nth_error_app1; [exact H|].
    apply nth_error_Some. congruence.
  - intros i index H. rewrite nth_error_app1; [exact H|].
    apply nth_error_Some. congruence.
Qed.

(** A service that has converted five times already is not touched by a
    call, and the call starts counting at zero. *)
Lemma htmlToMarkdown_deterministic_witness :
  nth_error
    (Objects.service nat
       (snd (Objects.htmlToMarkdown nat (fun _ => 0) counting_service
               (lit "<p>Hi</p>")
               {| Objects.lastIndex := [0]; Objects.service := [5] |})))
    0
  = Some 5
  /\ fst (Objects.htmlToMarkdown nat (fun _ => 0) counting_service
            (lit "<p>Hi</p>")
            {| Objects.lastIndex := [0]; Objects.service := [5] |})
     = Ok (lit "0<p>Hi</p>").
Proof.
  pose proof (htmlToMarkdown_deterministic nat (fun _ => 0) counting_service
                (lit "<p>Hi</p>")
                {| Objects.lastIndex := [0]; Objects.service := [5] |}
                {| Objects.lastIndex := []; Objects.service := [] |})
    as (_ & _ & R & S & _).
  split; [exact (S 0 5 eq_refl) | exact R].
Defined.

(** ** What the script filter removes *)

(** C2, as the source has it.  The filter of [htmlToMarkdown] removes
    script elements only.  A text in which [<script] does not occur, style
    elements included, reaches the converter unchanged.  A span from
    [<script] at a word boundary to the first closing tag behind it, in any
    letter case, is deleted, and the filter goes on behind it. *)
Theorem cleanHtml_removes_scripts_only :
  (forall html,
     occurs_ci script_open html = false -> cleanHtml html = html)
  /\ (forall pre open mid close post,
        occurs_ci script_open pre = false ->
        spelled script_open open ->
        boundary_after_word (mid ++ close) = true ->
        occurs_ci script_close mid = false ->
        spelled script_close close ->
        cleanHtml (pre ++ open ++ mid ++ close ++ post) =
        pre ++ cleanHtml post)
  /\ (forall converter html w,
        fst (htmlToMarkdown converter html w) =
        Ok (converter turndown_options (cleanHtml html))).
Proof.
  split; [exact cleanHtml_no_script|]. split.
  - intros pre open mid close post Hpre Ho Hb Hm Hc.
    destruct (spelled_head _ _ Ho) as (open' & Hopen).
    rewrite Hopen. cbn [app].
    rewrite cleanHtml_before_tag by assumption.
    change (lt_sign :: open' ++ mid ++ close ++ post)
      with ((lt_sign :: open') ++ mid ++ close ++ post).
    rewrite <- Hopen. now rewrite cleanHtml_script_span.
  - intros converter html w. now rewrite htmlToMarkdown_run.
Qed.

(** The two scripts of a small page are removed, its style element stays. *)
Lemma cleanHtml_removes_scripts_only_witness :
  cleanHtml (lit "<style>p{}</style>" ++ lit "<SCRIPT"
             ++ lit " defer>if (a<b) go()" ++ lit "</Script>"
             ++ lit "<p>Hi</p>")
  = lit "<style>p{}</style>" ++ cleanHtml (lit "<p>Hi</p>")
  /\ cleanHtml (lit "<p>Hi</p>") = lit "<p>Hi</p>".
Proof.
  split.
  - apply (proj1 (proj2 cleanHtml_removes_scripts_only));
      reflexivity.
  - apply (proj1 cleanHtml_removes_scripts_only). reflexivity.
Defined.

(** C2, as stated, fails on a style element: the filter leaves it in the
    text handed to the converter, and the serializer, for which [style] is
    an unknown tag, emits its text. *)
Lemma cleanHtml_keeps_style :
  cleanHtml (lit "<title>Test Page</title><style>body { margin: 0 }</style>")
  = lit "<title>Test Page</title><style>body { margin: 0 }</style>"
  /\ occurs_ci (lit "<style")
       (cleanHtml
          (lit "<title>Test Page</title><style>body { margin: 0 }</style>"))
     = true
  /\ convert turndown_options
       [Element "title" [] [Text (lit "Test Page")];
        Element "style" [] [Text (lit "body { margin: 0 }")]]
     = lit "Test Pagebody { margin: 0 }".
Proof. repeat split. Qed.

(** ** Plain text *)

Lemma no_lt_no_script (t : str) :
  no_lt t = true -> occurs_ci script_open t = false.
Proof.
  induction t as [|c t IH]; [reflexivity|].
  intros H. simpl in H. apply andb_true_iff in H as [Hc Ht].
  apply negb_true_iff in Hc.
  cbn [occurs_ci]. change script_open with (lt_sign :: lit "script").
  cbn [strip_prefix_by].
  destruct (eqb_ci lt_sign c) eqn:E.
  - apply eqb_ci_lt_sign in E. subst. discriminate.
  - now apply IH.
Qed.

(** Code units of a word are no white space and none of the code units
    that make markup. *)
Lemma is_alnum_range (c : char) :
  is_alnum c = true ->
  (48 <= c <= 57 \/ 65 <= c <= 90 \/ 97 <= c <= 122)%N.
Proof.
  unfold is_alnum. intros H.
  apply orb_true_iff in H as [H | H];
    [apply orb_true_iff in H as [H | H]|];
    apply andb_true_iff in H as [H1 H2];
    apply N.leb_le in H1; apply N.leb_le in H2; lia.
Qed.

Lemma range_eqb (c k : char) :
  (48 <= c <= 122)%N -> (k < 48 \/ 122 < k)%N -> N.eqb c k = false.
Proof. intros H K. apply N.eqb_neq. lia. Qed.

Lemma range_not_space (c : char) : (33 <= c <= 159)%N -> is_space c = false.
Proof.
  intros H. unfold is_space.
  replace (N.leb c 13) with false by (symmetry; apply N.leb_gt; lia).
  replace (N.leb 8192 c) with false by (symmetry; apply N.leb_gt; lia).
  rewrite andb_false_r. cbn [orb andb].
  repeat (rewrite (proj2 (N.eqb_neq c _)) by lia; cbn [orb]).
  reflexivity.
Qed.

Lemma is_alnum_plain (c : char) :
  is_alnum c = true ->
  is_space c = false /\ N.eqb c nl = false /\ N.eqb c lt_sign = false
  /\ N.eqb c 38 = false /\ N.eqb c 0 = false /\ N.eqb c 13 = false.
Proof.
  intros H. apply is_alnum_range in H.
  assert (R : (48 <= c <= 122)%N) by lia.
  repeat split;
    try (apply range_eqb; [exact R | unfold nl, lt_sign; lia]).
  - apply range_not_space. lia.
  - apply N.eqb_neq. unfold lt_sign. lia.
Qed.

Lemma spaced_plain (b : bool) (t : str) :
  spaced_from b t = true ->
  plain_text t = true /\ no_lt t = true /\ no_newline t = true
  /\ ends_clean t = true.
Proof.
  revert b; induction t as [|c t IH]; intros b H; [repeat split|].
  cbn [spaced_from] in H.
  assert (T : exists b', spaced_from b' t = true
                         /\ (is_alnum c = true
                             \/ c = 32%N /\ t <> [])).
  { destruct (is_alnum c).
    - exists true. split; [exact H | now left].
    - apply andb_true_iff in H as [H1 H2].
      apply andb_true_iff in H1 as [H1 _]. apply N.eqb_eq in H1.
      exists false. split; [exact H2 | right]. split; [exact H1|].
      intros ->. discriminate. }
  destruct T as (b' & Ht & Hc).
  destruct (IH b' Ht) as (P & L & N' & E).
  assert (C : N.eqb c nl = false /\ N.eqb c lt_sign = false
              /\ N.eqb c 38 = false /\ N.eqb c 0 = false
              /\ N.eqb c 13 = false).
  { destruct Hc as [Hc | [-> _]]; [|repeat split].
    now destruct (is_alnum_plain c Hc) as (_ & C). }
  destruct C as (C1 & C2 & C3 & C4 & C5).
  repeat split.
  - cbn [plain_text forallb]. rewrite C2, C3, C4, C5. exact P.
  - cbn [no_lt forallb]. rewrite C2. exact L.
  - cbn [no_newline forallb]. rewrite C1. exact N'.
  - destruct t as [|d t]; [|exact E].
    destruct Hc as [Hc | [_ Hc]]; [|now elim Hc].
    cbn [ends_clean]. now destruct (is_alnum_plain c Hc) as (-> & _).
Qed.

Lemma spaced_words_starts_clean (t : str) :
  spaced_words t = true -> starts_clean t = true.
Proof.
  destruct t as [|c t]; [reflexivity|]. unfold spaced_words.
  cbn [spaced_from starts_clean].
  destruct (is_alnum c) eqn:E.
  - intros _. now destruct (is_alnum_plain c E) as (-> & _).
  - rewrite andb_false_r. discriminate.
Qed.

(** Such a text is one that the normalizer leaves as it is. *)
Lemma spaced_words_normal (t : str) :
  spaced_words t = true -> normalize t = t.
Proof.
  intros H. destruct (spaced_plain false t H) as (_ & _ & N' & E).
  apply normalize_fixed;
    auto using no_newline_calm, spaced_words_starts_clean.
Qed.

(** C9, as the source and the converter have it.  The script filter
    leaves a text without [<] as it is, so [htmlToMarkdown] returns what
    the converter makes of the very text it was given.  With a DOM builder
    that turns the empty input into the empty document and text without
    markup into one text node, the converter of the specification returns
    the empty string on the empty string, and it returns a text made of
    words of letters and digits with single spaces between them
    unchanged. *)
Theorem htmlToMarkdown_plain_text :
  (forall (converter : Options -> str -> str) (t : str) (w : World),
     no_lt t = true ->
     fst (htmlToMarkdown converter t w)
     = Ok (converter turndown_options t))
  /\ forall parse : str -> list DocumentNode,
       parse [] = [] ->
       (forall s, s <> [] -> plain_text s = true -> parse s = [Text s]) ->
       (forall w, fst (htmlToMarkdown (markdown_of parse) [] w) = Ok [])
       /\ (forall t w,
             spaced_words t = true ->
             fst (htmlToMarkdown (markdown_of parse) t w) = Ok t).
Proof.
  split.
  - intros converter t w H. rewrite htmlToMarkdown_run. cbn [fst].
    now rewrite cleanHtml_no_script by now apply no_lt_no_script.
  - intros parse Hnil Htext. split.
    + intros w. rewrite htmlToMarkdown_run. cbn [fst].
      unfold markdown_of. change (cleanHtml []) with (@nil char).
      now rewrite Hnil.
    + intros t w H. destruct (spaced_plain false t H) as (P & L & _).
      rewrite htmlToMarkdown_run. cbn [fst]. unfold markdown_of.
      rewrite cleanHtml_no_script by now apply no_lt_no_script.
      rewrite Htext; [|intros ->; discriminate | exact P].
      unfold convert. cbn [List.map concat serialize]. rewrite app_nil_r.
      now rewrite spaced_words_normal.
Qed.

(** A text without [<] under a converter that escapes underscores, and
    the plain text of the repository's test, which comes back unchanged. *)
Lemma htmlToMarkdown_plain_text_witness :
  fst (htmlToMarkdown (fun _ => replace_all escape_underscore) (lit "a_b")
         empty_world)
  = Ok (lit "a\_b")
  /\ fst (htmlToMarkdown (markdown_of text_builder)
            (lit "Plain text without any HTML") empty_world)
     = Ok (lit "Plain text without any HTML").
Proof.
  split.
  - exact (proj1 htmlToMarkdown_plain_text
             (fun _ => replace_all escape_underscore) (lit "a_b")
             empty_world eq_refl).
  - apply (proj2 (proj2 htmlToMarkdown_plain_text text_builder eq_refl
      ltac:(intros [|c s] Hs _; [congruence | reflexivity]))); reflexivity.
Defined.

(** C9, as stated, fails on plain text with white space in front: the
    text comes back trimmed.  A text with a run of four newlines in it
    does not come back unchanged either. *)
Lemma htmlToMarkdown_trims_plain_text :
  plain_text (lit " a") = true
  /\ fst (htmlToMarkdown (markdown_of text_builder) (lit " a") empty_world)
     = Ok (lit "a")
  /\ lit "a" <> lit " a"
  /\ plain_text (lit "x" ++ repeat nl 4 ++ lit "y") = true
  /\ fst (htmlToMarkdown (markdown_of text_builder)
            (lit "x" ++ repeat nl 4 ++ lit "y") empty_world)
     <> Ok (lit "x" ++ repeat nl 4 ++ lit "y").
Proof. repeat split; discriminate. Qed.

(** ** Extraction failure *)

Lemma usable_content_none (article : option Article) :
  usable_content article = None <->
  article = None
  \/ exists a, article = Some a /\ (content a = None \/ content a = Some []).
Proof.
  split.
  - destruct article as [[[[|c s]|]]|]; simpl; intros H;
      try discriminate; eauto.
  - intros [-> | (a & -> & [E | E])]; simpl; try rewrite E; reflexivity.
Qed.

(** C5.  When the response is fine and Readability yields no article, or
    an article without content, [scrapeToMarkdown] throws
    [Scraping error: Failed to parse article content]; the tool handler
    returns that message behind [Error: ] with [isError] set, and no
    Markdown.  The failure is final: the one request of the call is the
    only one sent, and no conversion is started. *)
Theorem extraction_failure_terminal :
  forall (converter : Options -> str -> str)
         (fetch : str -> nat -> FetchOutcome) (Document : Type)
         (jsdom : str -> str -> Result Document)
         (readability_parse : Document -> Result (option Article))
         (url : str) (w : World) (r : Response) (html : str)
         (dom : Document) (article : option Article),
    fetch url (length (requests w)) = Resolved r ->
    ok r = true -> text r = Ok html ->
    jsdom html url = Ok dom ->
    readability_parse dom = Ok article ->
    (article = None
     \/ exists a, article = Some a
                  /\ (content a = None \/ content a = Some [])) ->
    let w' := {| regexps := regexps w; services := services w;
                 requests := requests w ++ [url] |} in
    scrapeToMarkdown converter fetch Document jsdom readability_parse url w
    = (Throw (lit "Scraping error: Failed to parse article content"), w')
    /\ scrape_tool converter fetch Document jsdom readability_parse url w
       = ({| content_text :=
               lit "Error: Scraping error: Failed to parse article content";
             isError := true |}, w').
Proof.
  intros converter fetch Document jsdom readability_parse url w r html dom
    article Hf Hok Ht Hd Hr Ha w'.
  apply usable_content_none in Ha.
  assert (S : scrapeToMarkdown converter fetch Document jsdom readability_parse
                url w
              = (Throw (lit "Scraping error: Failed to parse article content"),
                 w')).
  { unfold scrapeToMarkdown, try_catch, bind, do_fetch, lift, throw.
    rewrite Hf, Hok. cbn [negb]. rewrite Ht, Hd, Hr, Ha. reflexivity. }
  split; [exact S|]. unfold scrape_tool. now rewrite S.
Qed.

(** A page that is only navigation, for which Readability returns
    [null]. *)
Lemma extraction_failure_terminal_witness :
  scrape_tool (markdown_of text_builder)
    (fun _ _ => Resolved {| ok := true; status := 200%N;
                            text := Ok (lit "<nav><a href=/>Home</a></nav>") |})
    str (fun html _ => Ok html) (fun _ => Ok None)
    (lit "https://ex.com") empty_world
  = ({| content_text :=
          lit "Error: Scraping error: Failed to parse article content";
        isError := true |},
     {| regexps := []; services := [];
        requests := [lit "https://ex.com"] |}).
Proof.
  apply (proj2 (extraction_failure_terminal (markdown_of text_builder)
    (fun _ _ => Resolved {| ok := true; status := 200%N;
                            text := Ok (lit "<nav><a href=/>Home</a></nav>") |})
    str (fun html _ => Ok html) (fun _ => Ok None)
    (lit "https://ex.com") empty_world
    {| ok := true; status := 200%N;
       text := Ok (lit "<nav><a href=/>Home</a></nav>") |}
    (lit "<nav><a href=/>Home</a></nav>")
    (lit "<nav><a href=/>Home</a></nav>") None
    eq_refl eq_refl eq_refl eq_refl eq_refl (or_introl eq_refl))).
Defined.

(** ** The language hints keep the normal form *)

Lemma hinted_prefix (p x y : str) : hinted x y -> hinted (p ++ x) (p ++ y).
Proof. intros H. induction p; simpl; [exact H | now constructor]. Qed.








(** Each rule only inserts its language name behind the backticks of a
    fence. *)
Lemma hinted_replace (rule : str -> option (str * nat)) (word : str) :
  is_token word = true ->
  (forall s rep len,
     rule s = Some (rep, len) ->
     exists m r, s = ticks ++ m ++ r /\ rep = ticks ++ word ++ m
                 /\ len = length (ticks ++ m)) ->
  forall s, hinted s (replace_all rule s).
Proof.
  intros Hw Hrule s.
  remember (length s) as n eqn:En.
  revert s En. induction n as [n IH] using lt_wf_ind. intros s En.
  destruct s as [|c s]; [constructor|].
  destruct (rule (c :: s)) as [[rep len]|] eqn:E.
  - destruct (Hrule _ _ _ E) as (m & r & Hs & -> & ->).
    rewrite (replace_all_match _ _ _ _ _ E)
      by (rewrite length_app; simpl; lia).
    rewrite Hs.
    replace (ticks ++ m ++ r) with ((ticks ++ m) ++ r) at 2
      by now rewrite <- app_assoc.
    rewrite skipn_app_exact.
    change (hinted (backtick :: backtick :: backtick :: m ++ r)
              (backtick :: backtick :: backtick
               :: (word ++ m) ++ replace_all rule r)).
    do 2 constructor. rewrite <- app_assoc.
    constructor; [assumption|].
    apply hinted_prefix. apply (IH (length r)); [|reflexivity].
    subst n. rewrite Hs, !length_app. simpl. lia.
  - rewrite replace_all_miss by assumption. constructor.
    apply (IH (length s)); [subst; simpl; lia | reflexivity].
Qed.

Lemma js_rule_inserts (s rep : str) (len : nat) :
  js_rule s = Some (rep, len) ->
  exists m r, s = ticks ++ m ++ r /\ rep = ticks ++ lit "javascript" ++ m
              /\ len = length (ticks ++ m).
Proof.
  unfold js_rule. destruct (strip_prefix fence s) as [t|] eqn:E; [|discriminate].
  intros H. apply alt_then_bounded in H as (kw & rest & _ & Ht & Hk).
  apply strip_prefix_exact in E. subst.
  inversion Hk; subst.
  exists ([nl] ++ kw), rest. repeat split.
Qed.

Lemma py_rule_inserts (s rep : str) (len : nat) :
  py_rule s = Some (rep, len) ->
  exists m r, s = ticks ++ m ++ r /\ rep = ticks ++ lit "python" ++ m
              /\ len = length (ticks ++ m).
Proof.
  unfold py_rule. destruct (strip_prefix fence s) as [t|] eqn:E; [|discriminate].
  intros H. apply alt_then_bounded in H as (kw & rest & _ & Ht & Hk).
  apply strip_prefix_exact in E. subst.
  pose proof (take_drop_while is_space rest) as Hr.
  destruct (take_while is_space rest) as [|w ws]; [discriminate|].
  inversion Hk; subst.
  exists ([nl] ++ kw ++ w :: ws), (drop_while is_space rest). repeat split.
  - transitivity (fence ++ kw ++ (w :: ws) ++ drop_while is_space rest);
      [now rewrite Hr|].
    change fence with (ticks ++ [nl]).
    now rewrite <- !app_assoc.
  - simpl. rewrite !length_app. simpl. lia.
Qed.

Lemma hinted_classify (x : str) :
  hinted x (tag_javascript x)
  /\ hinted (tag_javascript x) (classify x).
Proof.
  split.
  - apply hinted_replace with (word := lit "javascript");
      [reflexivity | apply js_rule_inserts].
  - apply hinted_replace with (word := lit "python");
      [reflexivity | apply py_rule_inserts].
Qed.

(** ** The output of [scrapeToMarkdown] *)


(** ** The expectations of [data_processing.test.ts]

    The modelled converter is run on the documents of the repository's
    tests, given as the trees their HTML parses to. *)

Lemma test_converts_basic_html :
  convert turndown_options [Element "p" [] [Text (lit "Hello world")]]
  = lit "Hello world".
Proof. reflexivity. Qed.

Lemma test_converts_emphasis_and_strong :
  convert turndown_options [Element "em" [] [Text (lit "emphasized text")]]
  = lit "_emphasized text_"
  /\ convert turndown_options [Element "strong" [] [Text (lit "bold text")]]
     = lit "**bold text**".
Proof. split; reflexivity. Qed.

Lemma test_converts_code_blocks_with_fencing :
  convert turndown_options
    [Element "pre" [] [Element "code" [] [Text (lit "const x = 1;")]]]
  = fence ++ lit "const x = 1;" ++ [nl] ++ ticks.
Proof. reflexivity. Qed.

Lemma test_converts_links :
  convert turndown_options
    [Element "a" [("href"%string, lit "https://example.com")]
       [Text (lit "Example")]]
  = lit "[Example](https://example.com)".
Proof. reflexivity. Qed.

Lemma test_converts_lists :
  convert turndown_options
    [Element "ul" [] [Element "li" [] [Text (lit "Item 1")];
                      Element "li" [] [Text (lit "Item 2")]]]
  = lit "*   Item 1" ++ [nl] ++ lit "*   Item 2".
Proof. reflexivity. Qed.

Lemma test_converts_nested_structures :
  convert turndown_options
    [Element "div" []
       [Element "h1" [] [Text (lit "Title")];
        Element "p" []
          [Text (lit "Paragraph with ");
           Element "strong" [] [Text (lit "bold")];
           Text (lit " and ");
           Element "em" [] [Text (lit "emphasis")];
           Text (lit ".")]]]
  = lit "Title" ++ [nl] ++ lit "=====" ++ [nl; nl]
    ++ lit "Paragraph with **bold** and _emphasis_.".
Proof. reflexivity. Qed.

(** The code block of the first test, with its language hint, and the two
    code blocks of the specification. *)
Lemma test_code_blocks_classified :
  classify (convert turndown_options
    [Element "pre" [] [Element "code" [] [Text (lit "const x = 1;")]]])
  = js_tag ++ lit "const x = 1;" ++ [nl] ++ ticks
  /\ classify (convert turndown_options
       [Element "pre" []
          [Element "code" [] [Text (lit "def f():" ++ [nl] ++ lit "  pass")]]])
     = py_tag ++ lit "def f():" ++ [nl] ++ lit "  pass" ++ [nl] ++ ticks
  /\ classify (convert turndown_options
       [Element "pre" [] [Element "code" [] [Text (lit "class X {}")]]])
     = js_tag ++ lit "class X {}" ++ [nl] ++ ticks.
Proof. repeat split. Qed.

(** * Further properties of the code *)

(** ** [scrapeToMarkdown] and the tool handler *)

Section ScraperFacts.

Variable converter : Options -> str -> str.
Variable fetch : str -> nat -> FetchOutcome.
Variable Document : Type.
Variable jsdom : str -> str -> Result Document.
Variable readability_parse : Document -> Result (option Article).

Local Abbreviation scrape :=
  (scrapeToMarkdown converter fetch Document jsdom readability_parse).
Local Abbreviation tool :=
  (scrape_tool converter fetch Document jsdom readability_parse).

Lemma scrape_requests (url : str) (w : World) :
  requests (snd (scrape url w)) = requests w ++ [url].
Proof.
  unfold scrapeToMarkdown, try_catch, bind, do_fetch, lift, throw, ret.
  destruct (fetch url (length (requests w))) as [e|r]; [reflexivity|].
  destruct (ok r); cbn [negb]; [|reflexivity].
  destruct (text r) as [html|e]; [|reflexivity].
  destruct (jsdom html url) as [dom|e]; [|reflexivity].
  destruct (readability_parse dom) as [article|e]; [|reflexivity].
  destruct (usable_content article) as [c|]; [|reflexivity].
  rewrite htmlToMarkdown_run. reflexivity.
Qed.

(** X1.  Whatever happens, a call of [scrapeToMarkdown] sends exactly one
    request, to the URL it was given; so does the tool handler. *)
Theorem scrapeToMarkdown_one_request :
  forall (url : str) (w : World),
    requests (snd (scrape url w)) = requests w ++ [url]
    /\ requests (snd (tool url w)) = requests w ++ [url].
Proof.
  intros url w. pose proof (scrape_requests url w) as S.
  split; [exact S|].
  unfold scrape_tool.
  destruct (scrape url w) as [[markdown|e] w']; exact S.
Qed.

Lemma scrape_throw_inv (url : str) (w w' : World) (message : str) :
  scrape url w = (Throw message, w') ->
  (exists e, message = lit "Scraping error: " ++ e)
  /\ regexps w' = regexps w /\ services w' = services w.
Proof.
  revert url w w' message. intros url w w' message.
  unfold scrapeToMarkdown, try_catch, bind, do_fetch, lift, throw, ret.
  destruct (fetch url (length (requests w))) as [e|r].
  { intros H; inversion H; subst. split; [now eexists | now split]. }
  destruct (ok r); cbn [negb].
  2:{ intros H; inversion H; subst. split; [now eexists | now split]. }
  destruct (text r) as [html|e].
  2:{ intros H; inversion H; subst. split; [now eexists | now split]. }
  destruct (jsdom html url) as [dom|e].
  2:{ intros H; inversion H; subst. split; [now eexists | now split]. }
  destruct (readability_parse dom) as [article|e].
  2:{ intros H; inversion H; subst. split; [now eexists | now split]. }
  destruct (usable_content article) as [c|].
  2:{ intros H; inversion H; subst. split; [now eexists | now split]. }
  rewrite htmlToMarkdown_run. discriminate.
Qed.


(** X3.  A request that is rejected gives the error of the network behind
    the prefix; a response whose status is not OK gives
    [Failed to fetch URL: ] and the status in decimal, whatever the body
    of the response holds. *)
Theorem scrapeToMarkdown_fetch_failure :
  forall (url : str) (w : World),
    let w' := {| regexps := regexps w; services := services w;
                 requests := requests w ++ [url] |} in
    (forall e,
       fetch url (length (requests w)) = Rejected e ->
       scrape url w = (Throw (lit "Scraping error: " ++ e), w'))
    /\ (forall r,
          fetch url (length (requests w)) = Resolved r -> ok r = false ->
          scrape url w
          = (Throw (lit "Scraping error: Failed to fetch URL: "
                    ++ decimal (status r)), w')).
Proof.
  intros url w w'. split.
  - intros e H. unfold scrapeToMarkdown, try_catch, bind, do_fetch.
    now rewrite H.
  - intros r H Hok.
    unfold scrapeToMarkdown, try_catch, bind, do_fetch, throw.
    rewrite H, Hok. reflexivity.
Qed.


(** X5.  The tool handler flags an answer as an error exactly when
    [scrapeToMarkdown] threw; an error answer is the message behind
    [Error: Scraping error: ], any other answer is the Markdown itself. *)
Theorem scrape_tool_answer :
  forall (url : str) (w : World),
    (isError (fst (tool url w)) = true <->
     exists e, fst (scrape url w) = Throw e)
    /\ (isError (fst (tool url w)) = true ->
        exists e, content_text (fst (tool url w))
                  = lit "Error: Scraping error: " ++ e)
    /\ (isError (fst (tool url w)) = false ->
        fst (scrape url w) = Ok (content_text (fst (tool url w)))).
Proof.
  intros url w. unfold tool, scrape_tool. fold scrape.
  destruct (scrape url w) as [[markdown|e] w'] eqn:E; cbn [fst isError].
  - split; [|split].
    + split; [discriminate | intros (e & He); discriminate].
    + discriminate.
    + reflexivity.
  - split; [|split].
    + split; [now eexists | reflexivity].
    + intros _. destruct (scrape_throw_inv _ _ _ _ E) as ((e' & ->) & _).
      exists e'. reflexivity.
    + discriminate.
Qed.

End ScraperFacts.


(** A page that is not found. *)
Lemma scrapeToMarkdown_fetch_failure_witness :
  scrapeToMarkdown (markdown_of text_builder)
    (answering (page 404 (lit "<h1>Not Found</h1>")))
    str text_dom (extracting None) (lit "https://ex.com/x") empty_world
  = (Throw (lit "Scraping error: Failed to fetch URL: 404"),
     {| regexps := []; services := [];
        requests := [lit "https://ex.com/x"] |}).
Proof.
  exact (proj2 (scrapeToMarkdown_fetch_failure (markdown_of text_builder)
                  (answering (page 404 (lit "<h1>Not Found</h1>")))
                  str text_dom (extracting None)
                  (lit "https://ex.com/x") empty_world)
           _ eq_refl eq_refl).
Defined.


(** The answer of the tool for the page that is not found. *)
Lemma scrape_tool_answer_witness :
  exists e,
    content_text
      (fst (scrape_tool (markdown_of text_builder)
              (answering (page 404 (lit "<h1>Not Found</h1>")))
              str text_dom (extracting None)
              (lit "https://ex.com/x") empty_world))
    = lit "Error: Scraping error: " ++ e.
Proof.
  exact (proj1 (proj2 (scrape_tool_answer (markdown_of text_builder)
                         (answering (page 404 (lit "<h1>Not Found</h1>")))
                         str text_dom (extracting None)
                         (lit "https://ex.com/x") empty_world))
           eq_refl).
Defined.

(** ** The script filter: what it leaves and what it never does *)

Lemma strip_prefix_by_suffix (eq : char -> char -> bool) (p s t : str) :
  strip_prefix_by eq p s = Some t -> exists a, s = a ++ t.
Proof.
  revert s; induction p as [|x p IH]; intros s H; simpl in H.
  - inversion H. now exists [].
  - destruct s as [|y s]; [discriminate|].
    destruct (eq x y); [|discriminate].
    destruct (IH s H) as [a ->]. now exists (y :: a).
Qed.

Lemma occurs_ci_skip (p a u : str) :
  occurs_ci p (a ++ u) = false -> occurs_ci p u = false.
Proof.
  induction a as [|c a IH]; [auto|]. intros H.
  apply IH. now apply occurs_ci_tail in H.
Qed.

Lemma script_body_occurs (u : str) (n : nat) :
  script_body u = Some n -> occurs_ci script_close u = true.
Proof.
  revert n; induction u as [|c u IH]; intros n H; [discriminate|].
  cbn [script_body] in H. cbn [occurs_ci].
  destruct (strip_prefix_by eqb_ci script_close (c :: u)); [reflexivity|].
  assert (H' : option_map S (script_body u) = Some n)
    by (destruct (N.eqb c lt_sign); exact H).
  destruct (script_body u) as [m|]; [|discriminate]. now apply (IH m).
Qed.

Lemma script_rule_needs_close (t : str) :
  occurs_ci script_close t = false -> script_rule t = None.
Proof.
  intros H. unfold script_rule.
  destruct (strip_prefix_by eqb_ci script_open t) as [u|] eqn:E;
    [|reflexivity].
  destruct (boundary_after_word u); [|reflexivity].
  destruct (script_body u) as [n|] eqn:B; [|reflexivity].
  apply script_body_occurs in B.
  destruct (strip_prefix_by_suffix _ _ _ _ E) as [a ->].
  apply occurs_ci_skip in H. congruence.
Qed.

(** X6.  A script element that is never closed is not removed: without a
    closing tag [</script>] in the text, in any letter case, the filter
    changes nothing, so the code of the script reaches the converter. *)
Theorem cleanHtml_unclosed_script :
  forall html : str,
    occurs_ci script_close html = false -> cleanHtml html = html.
Proof.
  unfold cleanHtml. induction html as [|c s IH]; intros H; [reflexivity|].
  rewrite replace_all_miss by now apply script_rule_needs_close.
  f_equal. apply IH. now apply occurs_ci_tail in H.
Qed.

(** A script element without its closing tag. *)
Lemma cleanHtml_unclosed_script_witness :
  cleanHtml (lit "<p>Hi</p><script>track()")
  = lit "<p>Hi</p><script>track()".
Proof.
  exact (cleanHtml_unclosed_script (lit "<p>Hi</p><script>track()") eq_refl).
Defined.

Lemma replace_from_deletes (rule : str -> option (str * nat)) :
  (forall s rep len, rule s = Some (rep, len) -> rep = []) ->
  forall s k, subseq (replace_from rule k s) s.
Proof.
  intros Hr. induction s as [|c s IH]; intros k; [destruct k; constructor|].
  destruct k as [|k]; simpl.
  - destruct (rule (c :: s)) as [[rep len]|] eqn:E.
    + rewrite (Hr _ _ _ E). simpl. constructor. apply IH.
    + constructor. apply IH.
  - constructor. apply IH.
Qed.

Lemma subseq_length (x y : str) : subseq x y -> length x <= length y.
Proof. induction 1; simpl; lia. Qed.

(** X7.  The filter only deletes: its result is the input with some code
    units left out, in the same order, and is never longer than the
    input. *)
Theorem cleanHtml_only_deletes :
  forall html : str,
    subseq (cleanHtml html) html /\ length (cleanHtml html) <= length html.
Proof.
  intros html.
  assert (S : subseq (cleanHtml html) html).
  { apply replace_from_deletes. intros s rep len. unfold script_rule.
    destruct (strip_prefix_by eqb_ci script_open s); [|discriminate].
    destruct (boundary_after_word _); [|discriminate].
    destruct (script_body _); [|discriminate].
    intros H; now inversion H. }
  split; [exact S | now apply subseq_length].
Qed.

Lemma no_lt_occurs_ci (p' a b : str) :
  no_lt a = true ->
  occurs_ci (lt_sign :: p') (a ++ b) = occurs_ci (lt_sign :: p') b.
Proof.
  induction a as [|c a IH]; [reflexivity|]. intros H.
  simpl in H. apply andb_true_iff in H as [Hc Ha].
  apply negb_true_iff in Hc.
  change ((c :: a) ++ b) with (c :: (a ++ b)).
  cbn [occurs_ci strip_prefix_by].
  destruct (eqb_ci lt_sign c) eqn:E.
  - apply eqb_ci_lt_sign in E. subst. discriminate.
  - now apply IH.
Qed.

(** X8.  One pass of the filter is not enough.  A script element that is
    split by another one is put together by the removal of the inner
    element: the result of the filter is then a complete script element,
    which a second pass would delete.  The filter is not idempotent. *)
Theorem cleanHtml_reassembles_script :
  forall body : str,
    no_lt body = true ->
    let html := lit "<scr" ++ lit "<script" ++ lit ">" ++ lit "</script>"
                ++ lit "ipt>" ++ body ++ lit "</script>" in
    cleanHtml html = lit "<script>" ++ body ++ lit "</script>"
    /\ cleanHtml (cleanHtml html) = []
    /\ cleanHtml (cleanHtml html) <> cleanHtml html.
Proof.
  intros body Hb html.
  assert (H1 : cleanHtml html = lit "<script>" ++ body ++ lit "</script>").
  { unfold html.
    change (lit "<scr" ++ lit "<script" ++ lit ">" ++ lit "</script>"
            ++ lit "ipt>" ++ body ++ lit "</script>")
      with (lit "<scr" ++ lt_sign
            :: (lit "script" ++ lit ">" ++ lit "</script>"
                ++ lit "ipt>" ++ body ++ lit "</script>")).
    rewrite (cleanHtml_before_tag (lit "<scr")) by reflexivity.
    change (lt_sign :: (lit "script" ++ lit ">" ++ lit "</script>"
                        ++ lit "ipt>" ++ body ++ lit "</script>"))
      with (lit "<script" ++ lit ">" ++ lit "</script>"
            ++ lit "ipt>" ++ body ++ lit "</script>").
    rewrite cleanHtml_script_span by reflexivity.
    rewrite cleanHtml_no_script; [reflexivity|].
    change script_open with (lt_sign :: lit "script").
    rewrite app_assoc. rewrite no_lt_occurs_ci; [reflexivity|].
    unfold no_lt. rewrite forallb_app.
    apply andb_true_iff; split; [reflexivity | exact Hb]. }
  assert (H2 : cleanHtml (lit "<script>" ++ body ++ lit "</script>") = []).
  { change (lit "<script>" ++ body ++ lit "</script>")
      with (lit "<script" ++ (lit ">" ++ body) ++ lit "</script>" ++ []).
    rewrite cleanHtml_script_span; try reflexivity.
    change script_close with (lt_sign :: lit "/script>").
    rewrite <- (app_nil_r (lit ">" ++ body)).
    rewrite no_lt_occurs_ci; [reflexivity|].
    unfold no_lt. rewrite forallb_app.
    apply andb_true_iff; split; [reflexivity | exact Hb]. }
  rewrite H1, H2. repeat split. discriminate.
Qed.

(** The classic payload. *)
Lemma cleanHtml_reassembles_script_witness :
  cleanHtml (lit "<scr" ++ lit "<script" ++ lit ">" ++ lit "</script>"
             ++ lit "ipt>" ++ lit "alert(1)" ++ lit "</script>")
  = lit "<script>" ++ lit "alert(1)" ++ lit "</script>".
Proof.
  exact (proj1 (cleanHtml_reassembles_script (lit "alert(1)") eq_refl)).
Defined.

(** ** The language hints: what they leave alone *)

Lemma replace_all_quiet (rule : str -> option (str * nat)) (s : str) :
  fires rule s = false -> replace_all rule s = s.
Proof.
  induction s as [|c s IH]; [reflexivity|]. cbn [fires].
  destruct (rule (c :: s)) eqn:E; [discriminate|]. intros H.
  rewrite replace_all_miss by assumption. now rewrite IH.
Qed.

Lemma occurs_fence_fires (rule : str -> option (str * nat)) (s : str) :
  (forall t, strip_prefix fence t = None -> rule t = None) ->
  occurs fence s = false -> fires rule s = false.
Proof.
  intros Hr. induction s as [|c s IH]; [reflexivity|].
  cbn [occurs fires].
  destruct (strip_prefix fence (c :: s)) eqn:E; [discriminate|].
  intros H. rewrite (Hr _ E). now apply IH.
Qed.

(** X9.  Markdown in which no fence (three backticks and a newline) occurs
    is returned by the language hints as it is. *)
Theorem classify_without_fence :
  forall markdown : str,
    occurs fence markdown = false -> classify markdown = markdown.
Proof.
  intros x H. unfold classify, tag_javascript, tag_python.
  rewrite (replace_all_quiet js_rule).
  - apply replace_all_quiet. apply occurs_fence_fires; [|exact H].
    intros t E. unfold py_rule. now rewrite E.
  - apply occurs_fence_fires; [|exact H].
    intros t E. unfold js_rule. now rewrite E.
Qed.

(** Inline code and a fence that is tagged already. *)
Lemma classify_without_fence_witness :
  classify (lit "Use `let` here." ++ [nl] ++ lit "```js" ++ [nl]
            ++ lit "let x" ++ [nl] ++ lit "``` done")
  = lit "Use `let` here." ++ [nl] ++ lit "```js" ++ [nl]
    ++ lit "let x" ++ [nl] ++ lit "``` done".
Proof.
  exact (classify_without_fence
           (lit "Use `let` here." ++ [nl] ++ lit "```js" ++ [nl]
            ++ lit "let x" ++ [nl] ++ lit "``` done") eq_refl).
Defined.

Lemma subseq_refl (x : str) : subseq x x.
Proof. induction x; constructor; auto. Qed.

Lemma subseq_skip (w x y : str) : subseq x y -> subseq x (w ++ y).
Proof. intros H. induction w; simpl; [exact H | now constructor]. Qed.

Lemma subseq_trans (x y z : str) : subseq x y -> subseq y z -> subseq x z.
Proof.
  intros Hxy Hyz. revert x Hxy.
  induction Hyz as [|c y z Hyz IH|c y z Hyz IH]; intros x Hxy.
  - exact Hxy.
  - inversion Hxy; subst.
    + constructor. now apply IH.
    + apply subseq_drop. now apply IH.
  - apply subseq_drop. now apply IH.
Qed.

Lemma hinted_subseq (x y : str) : hinted x y -> subseq x y.
Proof.
  induction 1 as [|c x y H IH|w x y Hw H IH].
  - constructor.
  - now constructor.
  - constructor. now apply subseq_skip.
Qed.

(** X10.  The language hints only add text: the Markdown they are given
    is what is left of their result when some code units are taken out,
    and their result is at least as long. *)
Theorem classify_only_inserts :
  forall markdown : str,
    subseq markdown (classify markdown)
    /\ length markdown <= length (classify markdown).
Proof.
  intros x. destruct (hinted_classify x) as [H1 H2].
  assert (S : subseq x (classify x)).
  { apply subseq_trans with (y := tag_javascript x);
      now apply hinted_subseq. }
  split; [exact S | now apply subseq_length].
Qed.

(** ** The language hints are idempotent *)

Lemma ticks_cons (x : str) :
  ticks ++ x = backtick :: backtick :: backtick :: x.
Proof. reflexivity. Qed.

Section Settled.

(** [rule] rewrites, [probe] is looked for in the result.  Both are one of
    the two rules of the source: [rule] inserts [word] behind the
    backticks of a fence, [probe] asks for a fence and a text [p] without
    backticks behind it. *)
Variable rule probe : str -> option (str * nat).
Variable word : str.

Hypothesis word_no_tick : no_tick word = true.
Hypothesis word_head : hd nl word <> nl.

Hypothesis rule_inserts :
  forall s rep len,
    rule s = Some (rep, len) ->
    exists m r, s = ticks ++ m ++ r /\ rep = ticks ++ word ++ m
                /\ len = length (ticks ++ m) /\ no_tick m = true.

Hypothesis probe_shape :
  forall t,
    probe t <> None ->
    exists p r, t = ticks ++ nl :: p ++ r /\ no_tick p = true
                /\ forall r', probe (ticks ++ nl :: p ++ r') <> None.

Lemma probe_head (c : char) (s : str) :
  c <> backtick -> probe (c :: s) = None.
Proof.
  intros Hc. destruct (probe (c :: s)) as [found|] eqn:E; [|reflexivity].
  destruct (probe_shape (c :: s)) as (p & r & Ht & _); [congruence|].
  rewrite ticks_cons in Ht. inversion Ht. congruence.
Qed.

Lemma fires_copy (a t : str) :
  no_tick a = true -> fires probe (a ++ t) = fires probe t.
Proof.
  induction a as [|c a IH]; [reflexivity|]. intros H.
  simpl in H. apply andb_true_iff in H as [Hc Ha].
  apply negb_true_iff, N.eqb_neq in Hc.
  change ((c :: a) ++ t) with (c :: (a ++ t)). cbn [fires].
  rewrite probe_head by assumption. now apply IH.
Qed.

Lemma replace_head_inv (c : char) (s t : str) :
  c <> backtick -> replace_all rule s = c :: t ->
  exists s', s = c :: s' /\ replace_all rule s' = t.
Proof.
  intros Hc H. destruct s as [|c' s]; [discriminate|].
  destruct (rule (c' :: s)) as [[rep len]|] eqn:E.
  - exfalso. unfold replace_all in H; simpl in H; rewrite E in H.
    destruct (rule_inserts _ _ _ E) as (m & r & _ & -> & _).
    rewrite <- app_assoc, ticks_cons in H. inversion H.
    apply Hc. congruence.
  - rewrite replace_all_miss in H by assumption.
    inversion H; subst. now exists s.
Qed.

Lemma replace_prefix_inv (p s t : str) :
  no_tick p = true -> replace_all rule s = p ++ t ->
  exists s', s = p ++ s' /\ replace_all rule s' = t.
Proof.
  revert s; induction p as [|c p IH]; intros s Hp H; simpl in *.
  - now exists s.
  - apply andb_true_iff in Hp as [Hc Hp].
    apply negb_true_iff, N.eqb_neq in Hc.
    destruct (replace_head_inv _ _ _ Hc H) as (s1 & -> & H1).
    destruct (IH s1 Hp H1) as (s2 & -> & H2).
    now exists s2.
Qed.

(** What [rule] emits behind a backtick that it copied: a second backtick
    and a newline in its output were in its input. *)
Lemma replace_tick_inv (c : char) (s t : str) :
  c <> backtick ->
  replace_all rule s = backtick :: c :: t ->
  exists s', s = backtick :: c :: s' /\ replace_all rule s' = t.
Proof.
  intros Hc H. destruct s as [|c' s]; [discriminate|].
  destruct (rule (c' :: s)) as [[rep len]|] eqn:E.
  - exfalso. unfold replace_all in H; simpl in H; rewrite E in H.
    destruct (rule_inserts _ _ _ E) as (m & r & _ & -> & _).
    rewrite <- app_assoc, ticks_cons in H. inversion H.
    apply Hc. congruence.
  - rewrite replace_all_miss in H by assumption.
    inversion H; subst.
    destruct (replace_head_inv _ _ _ Hc H2) as (s1 & -> & H1).
    now exists s1.
Qed.

Lemma replace_ticks_inv (s t : str) :
  replace_all rule s = backtick :: backtick :: nl :: t ->
  exists s', s = backtick :: backtick :: nl :: s' /\ replace_all rule s' = t.
Proof.
  intros H. destruct s as [|c' s]; [discriminate|].
  destruct (rule (c' :: s)) as [[rep len]|] eqn:E.
  - exfalso. unfold replace_all in H; simpl in H; rewrite E in H.
    destruct (rule_inserts _ _ _ E) as (m & r & _ & -> & _).
    rewrite <- app_assoc, ticks_cons in H. inversion H.
  - rewrite replace_all_miss in H by assumption.
    inversion H; subst.
    destruct (replace_tick_inv nl _ _ ltac:(discriminate) H2)
      as (s1 & -> & H1).
    now exists s1.
Qed.

(** Where [probe] matches in front of the output of [rule], it matched in
    front of its input. *)
Lemma probe_before_output (c : char) (s : str) :
  probe (c :: replace_all rule s) <> None -> probe (c :: s) <> None.
Proof.
  intros H. destruct (probe_shape _ H) as (p & r & Ht & Hp & Hstable).
  rewrite ticks_cons in Ht. inversion Ht as [[Hc Hrest]].
  destruct (replace_ticks_inv _ _ Hrest) as (s1 & -> & H1).
  destruct (replace_prefix_inv _ _ _ Hp H1) as (s2 & -> & _).
  apply (Hstable s2).
Qed.

(** The text [rule] puts in place of a match holds no match of [probe]. *)
Lemma fires_replacement (m t : str) :
  no_tick m = true ->
  fires probe (ticks ++ word ++ m ++ t) = fires probe t.
Proof.
  intros Hm.
  assert (Hw : exists w0 word', word = w0 :: word' /\ w0 <> nl
                                /\ w0 <> backtick).
  { destruct word as [|w0 word'] eqn:E; [now elim word_head|].
    exists w0, word'. repeat split; auto.
    simpl in word_no_tick. apply andb_true_iff in word_no_tick as [H _].
    now apply negb_true_iff, N.eqb_neq in H. }
  destruct Hw as (w0 & word' & Ew & Hnl & Htick).
  assert (Hrest : fires probe (word ++ m ++ t) = fires probe t).
  { rewrite fires_copy by exact word_no_tick. now apply fires_copy. }
  rewrite <- Hrest. rewrite Ew.
  change (ticks ++ (w0 :: word') ++ m ++ t)
    with (backtick :: backtick :: backtick :: w0 :: (word' ++ m ++ t)).
  assert (N : forall pre, In pre [ [backtick; backtick; backtick];
                                   [backtick; backtick]; [backtick] ] ->
              probe (pre ++ w0 :: (word' ++ m ++ t)) = None).
  { intros pre Hpre.
    destruct (probe (pre ++ w0 :: word' ++ m ++ t)) as [found|] eqn:E;
      [|reflexivity].
    destruct (probe_shape (pre ++ w0 :: word' ++ m ++ t))
      as (p & r & Ht & _); [congruence|].
    rewrite ticks_cons in Ht. simpl in Hpre.
    destruct Hpre as [<- | [<- | [<- | []]]]; inversion Ht; congruence. }
  pose proof (N [backtick; backtick; backtick] ltac:(simpl; auto)) as N3.
  pose proof (N [backtick; backtick] ltac:(simpl; auto)) as N2.
  pose proof (N [backtick] ltac:(simpl; auto)) as N1.
  cbn [app] in N3, N2, N1. cbn [fires].
  now rewrite N3, N2, N1.
Qed.

(** If [probe] matches in the input only where [rule] does, it matches
    nowhere in the output of [rule]. *)
Lemma fires_after_replace (y : str) :
  (forall a t, y = a ++ t -> rule t = None -> probe t = None) ->
  fires probe (replace_all rule y) = false.
Proof.
  remember (length y) as n eqn:En. revert y En.
  induction n as [n IH] using lt_wf_ind. intros y En Hq.
  destruct y as [|c y]; [reflexivity|].
  destruct (rule (c :: y)) as [[rep len]|] eqn:E.
  - destruct (rule_inserts _ _ _ E) as (m & r & Hs & -> & -> & Hm).
    rewrite (replace_all_match _ _ _ _ _ E)
      by (rewrite length_app; simpl; lia).
    rewrite Hs.
    replace (ticks ++ m ++ r) with ((ticks ++ m) ++ r) at 1
      by now rewrite <- app_assoc.
    rewrite skipn_app_exact, <- !app_assoc.
    rewrite fires_replacement by assumption.
    apply (IH (length r)); [|reflexivity|].
    + subst n. rewrite Hs, !length_app. simpl. lia.
    + intros a t Hr. apply (Hq ((ticks ++ m) ++ a)).
      rewrite Hs, Hr. now rewrite <- !app_assoc.
  - rewrite replace_all_miss by assumption. cbn [fires].
    destruct (probe (c :: replace_all rule y)) as [found|] eqn:P.
    + exfalso. apply (probe_before_output c y); [congruence|].
      apply (Hq [] (c :: y)); [reflexivity | assumption].
    + apply (IH (length y)); [subst; simpl; lia | reflexivity|].
      intros a t Hy. apply (Hq (c :: a)). now rewrite Hy.
Qed.

End Settled.

Lemma keywords_no_tick (kw : str) :
  In kw (js_keywords ++ py_keywords) -> no_tick kw = true.
Proof.
  intros Hin; simpl in Hin.
  repeat (destruct Hin as [<-|Hin]; [reflexivity|]).
  destruct Hin.
Qed.

Lemma spaces_no_tick (ws : str) :
  forallb is_space ws = true -> no_tick ws = true.
Proof.
  unfold no_tick. intros H. rewrite forallb_forall in *. intros c Hc.
  apply negb_true_iff, N.eqb_neq, is_space_not_backtick, H, Hc.
Qed.

Lemma js_rule_shape (s rep : str) (len : nat) :
  js_rule s = Some (rep, len) ->
  exists m r, s = ticks ++ m ++ r /\ rep = ticks ++ lit "javascript" ++ m
              /\ len = length (ticks ++ m) /\ no_tick m = true.
Proof.
  unfold js_rule. destruct (strip_prefix fence s) as [t|] eqn:E; [|discriminate].
  intros H. apply alt_then_bounded in H as (kw & rest & Hin & Ht & Hk).
  apply strip_prefix_exact in E. subst.
  inversion Hk; subst.
  exists ([nl] ++ kw), rest. repeat split.
  apply (keywords_no_tick kw). apply in_or_app. now left.
Qed.

Lemma py_rule_shape (s rep : str) (len : nat) :
  py_rule s = Some (rep, len) ->
  exists m r, s = ticks ++ m ++ r /\ rep = ticks ++ lit "python" ++ m
              /\ len = length (ticks ++ m) /\ no_tick m = true.
Proof.
  unfold py_rule. destruct (strip_prefix fence s) as [t|] eqn:E; [|discriminate].
  intros H. apply alt_then_bounded in H as (kw & rest & Hin & Ht & Hk).
  apply strip_prefix_exact in E. subst.
  pose proof (take_drop_while is_space rest) as Hr.
  pose proof (take_while_forallb is_space rest) as Hsp.
  destruct (take_while is_space rest) as [|w ws]; [discriminate|].
  inversion Hk; subst.
  exists ([nl] ++ kw ++ w :: ws), (drop_while is_space rest). repeat split.
  - transitivity (fence ++ kw ++ (w :: ws) ++ drop_while is_space rest);
      [now rewrite Hr|].
    change fence with (ticks ++ [nl]).
    now rewrite <- !app_assoc.
  - simpl. rewrite !length_app. simpl. lia.
  - unfold no_tick. cbn [app forallb]. rewrite forallb_app.
    apply andb_true_iff; split; [reflexivity|].
    apply andb_true_iff; split.
    + apply (keywords_no_tick kw). apply in_or_app. now right.
    + now apply spaces_no_tick.
Qed.

Lemma js_rule_fence (kw r : str) :
  In kw js_keywords -> js_rule (ticks ++ nl :: kw ++ r) <> None.
Proof.
  intros Hin; simpl in Hin.
  repeat (destruct Hin as [<-|Hin]; [discriminate|]).
  destruct Hin.
Qed.

Lemma js_probe_shape (t : str) :
  js_rule t <> None ->
  exists p r, t = ticks ++ nl :: p ++ r /\ no_tick p = true
              /\ forall r', js_rule (ticks ++ nl :: p ++ r') <> None.
Proof.
  unfold js_rule at 1.
  destruct (strip_prefix fence t) as [u|] eqn:E;
    [|intros H; now elim H].
  destruct (alt_then js_keywords _ u) as [found|] eqn:A;
    [|intros H; now elim H].
  intros _. apply alt_then_bounded in A as (kw & rest & Hin & Hu & _).
  apply strip_prefix_exact in E. subst.
  exists kw, rest. repeat split.
  - apply (keywords_no_tick kw). apply in_or_app. now left.
  - intros r'. now apply js_rule_fence.
Qed.

Lemma py_probe_shape (t : str) :
  py_rule t <> None ->
  exists p r, t = ticks ++ nl :: p ++ r /\ no_tick p = true
              /\ forall r', py_rule (ticks ++ nl :: p ++ r') <> None.
Proof.
  unfold py_rule at 1.
  destruct (strip_prefix fence t) as [u|] eqn:E;
    [|intros H; now elim H].
  destruct (alt_then py_keywords _ u) as [found|] eqn:A;
    [|intros H; now elim H].
  intros _. apply alt_then_bounded in A as (kw & rest & Hin & Hu & K).
  apply strip_prefix_exact in E. subst.
  pose proof (take_drop_while is_space rest) as Hr.
  pose proof (take_while_forallb is_space rest) as Hsp.
  destruct (take_while is_space rest) as [|w ws]; [discriminate|].
  simpl in Hsp. apply andb_true_iff in Hsp as [Hw _].
  exists (kw ++ [w]), (ws ++ drop_while is_space rest). repeat split.
  - transitivity (fence ++ kw ++ (w :: ws) ++ drop_while is_space rest);
      [now rewrite Hr|].
    change fence with (ticks ++ [nl]).
    now rewrite <- !app_assoc.
  - unfold no_tick. rewrite forallb_app.
    apply andb_true_iff; split.
    + apply (keywords_no_tick kw). apply in_or_app. now right.
    + apply (spaces_no_tick [w]). simpl. now rewrite Hw.
  - intros r'.
    replace (ticks ++ nl :: (kw ++ [w]) ++ r')
      with (fence ++ kw ++ w :: r')
      by (change fence with (ticks ++ [nl]); now rewrite <- !app_assoc).
    rewrite py_rule_fence by assumption.
    simpl. rewrite Hw. discriminate.
Qed.

Lemma fires_suffix (probe : str -> option (str * nat)) (y a t : str) :
  probe [] = None -> fires probe y = false -> y = a ++ t -> probe t = None.
Proof.
  intros Hnil. revert y. induction a as [|c a IH]; intros y Hf ->.
  - destruct t as [|c t]; [exact Hnil|]. cbn [app fires] in Hf.
    destruct (probe (c :: t)); [discriminate | reflexivity].
  - apply (IH (a ++ t)); [|reflexivity].
    change ((c :: a) ++ t) with (c :: (a ++ t)) in Hf. cbn [fires] in Hf.
    destruct (probe (c :: a ++ t)); [discriminate | exact Hf].
Qed.

(** After the hints neither rule matches anywhere. *)
Lemma classify_settled (x : str) :
  fires js_rule (classify x) = false /\ fires py_rule (classify x) = false.
Proof.
  assert (J : fires js_rule (tag_javascript x) = false).
  { apply fires_after_replace with (word := lit "javascript");
      try reflexivity; try discriminate.
    - apply js_rule_shape.
    - apply js_probe_shape.
    - auto. }
  unfold classify. split.
  - apply fires_after_replace with (word := lit "python");
      try reflexivity; try discriminate.
    + apply py_rule_shape.
    + apply js_probe_shape.
    + intros a t Hy _. now apply (fires_suffix js_rule _ a t eq_refl J).
  - apply fires_after_replace with (word := lit "python");
      try reflexivity; try discriminate.
    + apply py_rule_shape.
    + apply py_probe_shape.
    + auto.
Qed.

(** X11.  The language hints are idempotent: applied to their own result
    they change nothing, so a fence is never tagged twice. *)
Theorem classify_idempotent :
  forall markdown : str, classify (classify markdown) = classify markdown.
Proof.
  intros x. destruct (classify_settled x) as [J P].
  unfold classify at 1. unfold tag_javascript at 1.
  rewrite (replace_all_quiet js_rule) by exact J.
  now apply replace_all_quiet.
Qed.

(** ** The end of the pipeline *)

(** The normalized texts are the ones the normalizer of the specification
    leaves as they are. *)
Lemma normalized_fixed_point (x : str) :
  normalized x = true <-> normalize x = x.
Proof.
  unfold normalized. split.
  - intros H. apply andb_true_iff in H as [H He].
    apply andb_true_iff in H as [Hc Hs]. now apply normalize_fixed.
  - intros H. rewrite <- H.
    rewrite normalize_calm.
    destruct (trim_trimmed (collapse_newlines x)) as [Hs He].
    unfold normalize. now rewrite Hs, He.
Qed.





(** ** The weather tools *)

Section WeatherFacts.

Variable fetch : str -> nat -> FetchOutcome.
Variable toUpperCase : str -> str.
Variable Number : Type.
Variable toFixed4 : Number -> str.
Variable number_to_string : Number -> str.
Variable number_truthy : Number -> bool.
Variable decode_alerts : str -> Result (option Weather.AlertsResponse).
Variable decode_points : str -> Result (option Weather.PointsResponse).
Variable decode_forecast :
  str -> Result (option (Weather.ForecastResponse Number)).

Local Abbreviation request := (Weather.makeNWSRequest fetch).
Local Abbreviation alerts :=
  (Weather.get_alerts fetch toUpperCase decode_alerts).
Local Abbreviation forecast_tool :=
  (Weather.get_forecast fetch Number toFixed4 number_to_string
     number_truthy decode_points decode_forecast).

Lemma request_effects (T : Type) (decode : str -> Result (option T))
    (url : str) (io : Io) :
  requests (net (snd (request decode url io)))
  = requests (net io) ++ [url]
  /\ console_log (snd (request decode url io)) = console_log io
  /\ files_written (snd (request decode url io)) = files_written io
  /\ (console_error (snd (request decode url io)) = console_error io
      \/ fst (request decode url io) = None
         /\ exists message,
              console_error (snd (request decode url io))
              = console_error io
                ++ [[lit "Error making NWS request:"; message]]).
Proof.
  unfold Weather.makeNWSRequest, do_fetch.
  destruct (fetch url (length (requests (net io)))) as [e|r];
    cbn [fst snd net set_net log_error requests console_log console_error
         files_written].
  { repeat split. right. split; [reflexivity | now eexists]. }
  destruct (ok r); cbn [negb fst snd net set_net log_error requests
                        console_log console_error files_written].
  2:{ repeat split. right. split; [reflexivity | now eexists]. }
  destruct (text r) as [body|e];
    cbn [fst snd net set_net log_error requests console_log console_error
         files_written].
  2:{ repeat split. right. split; [reflexivity | now eexists]. }
  destruct (decode body) as [data|e];
    cbn [fst snd net set_net log_error requests console_log console_error
         files_written].
  - repeat split. now left.
  - repeat split. right. split; [reflexivity | now eexists].
Qed.

(** X12.  [makeNWSRequest] sends one request and never throws: a request
    that is rejected, a status that is not OK and a body that is not JSON
    all give [null], with exactly one line on the error console; a result
    other than [null] comes with nothing logged. *)
Theorem makeNWSRequest_effects :
  forall (T : Type) (decode : str -> Result (option T)) (url : str)
         (io : Io),
    requests (net (snd (request decode url io)))
    = requests (net io) ++ [url]
    /\ (console_error (snd (request decode url io)) = console_error io
        \/ fst (request decode url io) = None
           /\ exists message,
                console_error (snd (request decode url io))
                = console_error io
                  ++ [[lit "Error making NWS request:"; message]])
    /\ (forall r,
          fetch url (length (requests (net io))) = Resolved r ->
          ok r = false ->
          fst (request decode url io) = None
          /\ console_error (snd (request decode url io))
             = console_error io
               ++ [[lit "Error making NWS request:";
                    lit "HTTP error! status: " ++ decimal (status r)]]).
Proof.
  intros T decode url io.
  destruct (request_effects T decode url io) as (H1 & _ & _ & H2).
  split; [exact H1|]. split; [exact H2|].
  intros r Hf Hok. unfold Weather.makeNWSRequest, do_fetch.
  rewrite Hf, Hok. split; reflexivity.
Qed.

(** X13.  The [get-alerts] tool sends exactly one request, for the state
    code in upper case, and its answer is one of three texts: the failure
    notice, the notice that the state has no active alerts, or the list of
    the formatted alerts under its heading. *)
Theorem get_alerts_answer :
  forall (state : str) (io : Io),
    let code := toUpperCase state in
    requests (net (snd (alerts state io)))
    = requests (net io)
      ++ [lit "https://api.weather.gov/alerts?area=" ++ code]
    /\ (fst (alerts state io) = lit "Failed to retrieve alerts data"
        \/ fst (alerts state io) = lit "No active alerts for " ++ code
        \/ exists f fs,
             fst (alerts state io)
             = lit "Active alerts for " ++ code ++ lit ":" ++ [nl; nl]
               ++ intercalate [nl]
                    (List.map Weather.formatAlert (f :: fs))).
Proof.
  intros state io code. unfold Weather.get_alerts. fold code.
  pose proof (request_effects _ decode_alerts
                (Weather.NWS_API_BASE ++ lit "/alerts?area=" ++ code) io)
    as (H1 & _).
  destruct (request decode_alerts
              (Weather.NWS_API_BASE ++ lit "/alerts?area=" ++ code) io)
    as [[data|] io'] eqn:E; cbn [fst snd] in *.
  - destruct (Weather.features data) as [[|f fs]|]; cbn [fst snd].
    + split; [exact H1 | right; now left].
    + split; [exact H1 | right; right; now exists f, fs].
    + split; [exact H1 | right; now left].
  - split; [exact H1 | now left].
Qed.

(** X14.  A response without the list of features and a response with an
    empty list are answered alike, with [No active alerts for] and the
    state code; a response whose status is not OK gives the failure
    notice. *)
Theorem get_alerts_no_alerts :
  forall (state : str) (io : Io) (r : Response) (body : str)
         (data : Weather.AlertsResponse),
    fetch (lit "https://api.weather.gov/alerts?area=" ++ toUpperCase state)
          (length (requests (net io))) = Resolved r ->
    (ok r = false ->
     fst (alerts state io) = lit "Failed to retrieve alerts data")
    /\ (ok r = true -> text r = Ok body ->
        decode_alerts body = Ok (Some data) ->
        Weather.features data = None \/ Weather.features data = Some [] ->
        fst (alerts state io)
        = lit "No active alerts for " ++ toUpperCase state).
Proof.
  intros state io r body data Hf. split.
  - intros Hok. unfold Weather.get_alerts, Weather.makeNWSRequest, do_fetch.
    change (Weather.NWS_API_BASE ++ lit "/alerts?area=" ++ toUpperCase state)
      with (lit "https://api.weather.gov/alerts?area=" ++ toUpperCase state).
    now rewrite Hf, Hok.
  - intros Hok Ht Hd Hfe.
    unfold Weather.get_alerts, Weather.makeNWSRequest, do_fetch.
    change (Weather.NWS_API_BASE ++ lit "/alerts?area=" ++ toUpperCase state)
      with (lit "https://api.weather.gov/alerts?area=" ++ toUpperCase state).
    rewrite Hf, Hok. cbn [negb]. rewrite Ht, Hd.
    destruct Hfe as [-> | ->]; reflexivity.
Qed.

Lemma or_else_nonempty (x : option str) (d : str) :
  d <> [] -> or_else x d <> [].
Proof. destruct x as [[|c s]|]; simpl; auto; discriminate. Qed.

(** X15.  [formatAlert] never prints a label without a value: a field
    that is missing, and a field that is the empty string, is replaced by
    [Unknown] (by [No headline] for the headline), and the text ends with
    the separator line. *)
Theorem formatAlert_values :
  forall feature : Weather.AlertFeature,
  exists v1 v2 v3 v4 v5,
    (v1 <> [] /\ v2 <> [] /\ v3 <> [] /\ v4 <> [] /\ v5 <> [])
    /\ Weather.formatAlert feature
       = lit "Event: " ++ v1 ++ [nl] ++ lit "Area: " ++ v2 ++ [nl]
         ++ lit "Severity: " ++ v3 ++ [nl] ++ lit "Status: " ++ v4 ++ [nl]
         ++ lit "Headline: " ++ v5 ++ [nl] ++ lit "---"
    /\ (forall props,
          Weather.alert_properties feature = props ->
          (Weather.event props = None \/ Weather.event props = Some [] ->
           v1 = lit "Unknown")
          /\ (Weather.headline props = None
              \/ Weather.headline props = Some [] ->
              v5 = lit "No headline")).
Proof.
  intros [props].
  exists (or_else (Weather.event props) (lit "Unknown")),
         (or_else (Weather.areaDesc props) (lit "Unknown")),
         (or_else (Weather.severity props) (lit "Unknown")),
         (or_else (Weather.alert_status props) (lit "Unknown")),
         (or_else (Weather.headline props) (lit "No headline")).
  split; [|split].
  - repeat split; apply or_else_nonempty; discriminate.
  - unfold Weather.formatAlert. cbn [Weather.alert_properties intercalate].
    now rewrite <- !app_assoc.
  - intros props' <-. cbn [Weather.alert_properties].
    split; intros [-> | ->]; reflexivity.
Qed.

(** X16.  The [get-forecast] tool asks for the grid point first and for
    the forecast only at the address the grid point gave: when the first
    request fails, or its answer holds no forecast address, the tool stops
    after one request with a failure notice. *)
Theorem get_forecast_requests :
  forall (latitude longitude : Number) (io : Io),
    let pointsUrl :=
      lit "https://api.weather.gov/points/" ++ toFixed4 latitude
      ++ lit "," ++ toFixed4 longitude in
    let first := request decode_points pointsUrl io in
    let address :=
      match fst first with
      | Some data =>
          match Weather.points_properties data with
          | Some p => or_else (Weather.forecast p) []
          | None => []
          end
      | None => []
      end in
    (address = [] ->
     requests (net (snd (forecast_tool latitude longitude io)))
     = requests (net io) ++ [pointsUrl]
     /\ (fst (forecast_tool latitude longitude io)
         = lit "Failed to get forecast URL from grid point data"
         \/ exists tail,
              fst (forecast_tool latitude longitude io)
              = lit "Failed to retrieve grid point data for coordinates: "
                ++ tail))
    /\ (address <> [] ->
        requests (net (snd (forecast_tool latitude longitude io)))
        = requests (net io) ++ [pointsUrl; address]).
Proof.
  intros latitude longitude io pointsUrl first address.
  subst first address. unfold Weather.get_forecast.
  change (Weather.NWS_API_BASE ++ lit "/points/" ++ toFixed4 latitude
          ++ lit "," ++ toFixed4 longitude) with pointsUrl.
  pose proof (request_effects _ decode_points pointsUrl io) as (H1 & _).
  destruct (request decode_points pointsUrl io) as [[data|] io1] eqn:E;
    cbn [fst snd] in *.
  - destruct (match Weather.points_properties data with
              | Some p => or_else (Weather.forecast p) []
              | None => []
              end) as [|c u] eqn:A.
    + split; [intros _ | congruence].
      split; [exact H1 | now left].
    + split; [discriminate | intros _].
      pose proof (request_effects _ decode_forecast (c :: u) io1)
        as (H2 & _).
      destruct (request decode_forecast (c :: u) io1)
        as [[fdata|] io2]; cbn [fst snd] in *.
      * assert (R : requests (net io2)
                    = requests (net io) ++ [pointsUrl; c :: u]).
        { rewrite H2, H1. now rewrite <- app_assoc. }
        destruct (Weather.forecast_properties _ fdata) as [fp|];
          [destruct (Weather.periods _ fp) as [[|p ps]|]|]; exact R.
      * rewrite H2, H1. now rewrite <- app_assoc.
  - split; [intros _ | congruence].
    split; [exact H1 | right; now eexists].
Qed.

End WeatherFacts.

(** ** The command line *)

Section CliFacts.

Variable converter : Options -> str -> str.
Variable fetch : str -> nat -> FetchOutcome.
Variable Document : Type.
Variable jsdom : str -> str -> Result Document.
Variable readability_parse : Document -> Result (option Article).
Variable readFile : str -> Result str.
Variable writeFile : str -> str -> Result unit.

Local Abbreviation run :=
  (Cli.runCli converter fetch Document jsdom readability_parse readFile
     writeFile).
Local Abbreviation input :=
  (Cli.convert_input converter fetch Document jsdom readability_parse
     readFile).
Local Abbreviation output := (Cli.write_output writeFile).

Lemma input_effects (htmlFileMode : bool) (target : str) (io : Io) :
  console_log (snd (input htmlFileMode target io)) = console_log io
  /\ console_error (snd (input htmlFileMode target io)) = console_error io
  /\ files_written (snd (input htmlFileMode target io)) = files_written io
  /\ requests (net (snd (input htmlFileMode target io)))
     = requests (net io) ++ (if htmlFileMode then [] else [target])
  /\ files_read (snd (input htmlFileMode target io))
     = files_read io ++ (if htmlFileMode then [target] else [])
  /\ (htmlFileMode = true ->
      forall e, fst (input htmlFileMode target io) = Throw e ->
      exists cause, e = lit "Error reading HTML file: " ++ cause).
Proof.
  unfold Cli.convert_input. destruct htmlFileMode.
  - destruct (readFile target) as [html|e].
    + rewrite htmlToMarkdown_run. cbn. rewrite !app_nil_r.
      repeat split. intros _ e H. discriminate.
    + cbn. rewrite !app_nil_r. repeat split.
      intros _ e' H. inversion H. now eexists.
  - pose proof (scrape_requests converter fetch Document jsdom
                  readability_parse target (net io)) as R.
    destruct (scrapeToMarkdown converter fetch Document jsdom
                readability_parse target (net io)) as [r w].
    cbn in *. rewrite !app_nil_r. repeat split; auto. discriminate.
Qed.

Lemma output_effects (outputFile : option str) (markdown : str) (io : Io) :
  net (snd (output outputFile markdown io)) = net io
  /\ files_read (snd (output outputFile markdown io)) = files_read io
  /\ match fst (output outputFile markdown io) with
     | Throw _ => snd (output outputFile markdown io) = io
     | Ok _ =>
         (exists path,
            files_written (snd (output outputFile markdown io))
            = files_written io ++ [(path, markdown)]
            /\ console_error (snd (output outputFile markdown io))
               = console_error io ++ [[lit "Markdown saved to: " ++ path]]
            /\ console_log (snd (output outputFile markdown io))
               = console_log io)
         \/ (files_written (snd (output outputFile markdown io))
             = files_written io
             /\ console_error (snd (output outputFile markdown io))
                = console_error io
             /\ console_log (snd (output outputFile markdown io))
                = console_log io ++ [markdown])
     end.
Proof.
  unfold Cli.write_output. destruct outputFile as [[|c p]|].
  - cbn. repeat split. right. repeat split.
  - destruct (writeFile (c :: p) markdown) as [u|e]; cbn.
    + repeat split. left. exists (c :: p). repeat split.
    + repeat split.
  - cbn. repeat split. right. repeat split.
Qed.

(** X17.  The exit code is 0 exactly when help was asked for, by [--help]
    or [-h] anywhere among the arguments or by giving no argument at all;
    then the usage text is printed and nothing else happens: no request,
    no file read or written, nothing on the error console. *)
Theorem runCli_help :
  forall (args : list str) (io : Io),
    (fst (run args io) = Cli.Exited 0 <-> help_asked args = true)
    /\ (help_asked args = true ->
        snd (run args io) = log_line Cli.usage io).
Proof.
  intros args io. unfold Cli.runCli. fold (help_asked args).
  destruct (help_asked args).
  - repeat split.
  - split; [|discriminate]. split; [|discriminate].
    destruct (_ && _); [discriminate|].
    destruct (input _ _ io) as [[markdown|e] io1]; [|discriminate].
    destruct (output _ markdown io1) as [[u|e] io2]; discriminate.
Qed.

(** X18.  With [--html-file] among the arguments the command line never
    uses the network, whatever else happens. *)
Theorem runCli_html_file_offline :
  forall (args : list str) (io : Io),
    Cli.includes (lit "--html-file") args = true ->
    requests (net (snd (run args io))) = requests (net io).
Proof.
  intros args io Hh. unfold Cli.runCli. rewrite Hh.
  destruct (_ || _); [reflexivity|]. cbn [andb].
  destruct (Nat.leb _ _); [reflexivity|].
  match goal with
  | |- context [input true ?t io] =>
      pose proof (input_effects true t io) as (_ & _ & _ & R & _);
      destruct (input true t io) as [[markdown|e] io1]
  end; cbn [fst snd] in *.
  - match goal with
    | |- context [output ?o markdown io1] =>
        pose proof (output_effects o markdown io1) as (N & _);
        destruct (output o markdown io1) as [[u|e] io2]
    end; cbn [fst snd net log_error] in *; rewrite ?N, R;
      now rewrite app_nil_r.
  - cbn [net log_error]. rewrite R. now rewrite app_nil_r.
Qed.

(** X19.  Without [--html-file], and unless help was asked for, the
    command line sends exactly one request, to its first argument, and
    reads no file. *)
Theorem runCli_url_mode :
  forall (args : list str) (io : Io),
    help_asked args = false ->
    Cli.includes (lit "--html-file") args = false ->
    requests (net (snd (run args io)))
    = requests (net io) ++ [nth 0 args []]
    /\ files_read (snd (run args io)) = files_read io.
Proof.
  intros args io Hhelp Hh. unfold Cli.runCli.
  fold (help_asked args). rewrite Hhelp, Hh. cbn [andb].
  pose proof (input_effects false (nth 0 args []) io)
    as (_ & _ & _ & R & F & _).
  destruct (input false (nth 0 args []) io) as [[markdown|e] io1];
    cbn [fst snd] in *.
  - pose proof (output_effects (nth_error args 1) markdown io1)
      as (N & F' & _).
    destruct (output (nth_error args 1) markdown io1) as [[u|e] io2];
      cbn [fst snd net log_error files_read] in *;
      rewrite ?N, ?F', R, F; now rewrite app_nil_r.
  - cbn [net log_error files_read]. rewrite R, F. now rewrite app_nil_r.
Qed.

(** What the statements of [runCli] do to the consoles and the files, by
    the way the function ends. *)
Lemma runCli_effects (args : list str) (io : Io) :
  match fst (run args io) with
  | Cli.Returned =>
      (exists path markdown,
         files_written (snd (run args io))
         = files_written io ++ [(path, markdown)]
         /\ console_log (snd (run args io)) = console_log io
         /\ console_error (snd (run args io))
            = console_error io ++ [[lit "Markdown saved to: " ++ path]])
      \/ (exists markdown,
            console_log (snd (run args io)) = console_log io ++ [markdown]
            /\ files_written (snd (run args io)) = files_written io
            /\ console_error (snd (run args io)) = console_error io)
  | Cli.Exited code =>
      (code = 0%N \/ code = 1%N)
      /\ (code = 1%N ->
          console_log (snd (run args io)) = console_log io
          /\ files_written (snd (run args io)) = files_written io
          /\ exists message,
               console_error (snd (run args io))
               = console_error io ++ [[message]])
  end.
Proof.
  unfold Cli.runCli.
  destruct (_ || _).
  { cbn. split; [now left | discriminate]. }
  destruct (_ && _).
  { cbn. split; [now right|]. intros _. repeat split. now eexists. }
  match goal with
  | |- context [input ?m ?t io] =>
      pose proof (input_effects m t io) as (L & E & W & _);
      destruct (input m t io) as [[markdown|e] io1]
  end; cbn [fst snd] in *.
  - match goal with
    | |- context [output ?o markdown io1] =>
        pose proof (output_effects o markdown io1) as (_ & _ & O);
        destruct (output o markdown io1) as [[u|e] io2]
    end; cbn [fst snd] in *.
    + destruct O as [(path & W2 & E2 & L2) | (W2 & E2 & L2)].
      * left. exists path, markdown. rewrite W2, L2, E2, W, L, E. auto.
      * right. exists markdown. rewrite W2, L2, E2, W, L, E. auto.
    + subst io2. split; [now right|]. intros _.
      cbn. rewrite L, W, E. repeat split. now eexists.
  - split; [now right|]. intros _.
    cbn. rewrite L, W, E. repeat split. now eexists.
Qed.

(** When [runCli] does not get to wait, it exits: with the usage text, or
    with the complaint about the missing file. *)
Lemma first_await_none (args : list str) (io : Io) :
  Cli.first_await fetch args io = None ->
  run args io = (Cli.Exited 0, log_line Cli.usage io)
  \/ run args io
     = (Cli.Exited 1,
        log_error [lit "Error: No HTML file specified after --html-file"]
          io).
Proof.
  unfold Cli.first_await, Cli.runCli.
  destruct (_ || _); [now left|].
  destruct (_ && _); [now right | discriminate].
Qed.

(** What waits has logged nothing and written nothing yet. *)
Lemma first_await_some (args : list str) (io waiting : Io) :
  Cli.first_await fetch args io = Some waiting ->
  console_log waiting = console_log io
  /\ console_error waiting = console_error io
  /\ files_written waiting = files_written io.
Proof.
  unfold Cli.first_await.
  destruct (_ || _); [discriminate|].
  destruct (_ && _); [discriminate|].
  destruct (Cli.includes _ args); intros H; inversion H; repeat split.
Qed.

Variable connect : Result unit.

Local Abbreviation program :=
  (Cli.cli converter fetch Document jsdom readability_parse readFile
     writeFile connect).

(** X20.  When the command line ends without a call of [process.exit],
    the Markdown went to exactly one place: to one file, with nothing on
    the standard output, or to the standard output, with no file written.
    The error console has then received the line of the server that the
    import of [./index.js] starts, and behind it, when a file was written,
    the note that names the file. *)
Theorem cli_output_once :
  forall (args : list str) (io : Io),
    fst (program args io) = Cli.Returned ->
    (exists path markdown,
       files_written (snd (program args io))
       = files_written io ++ [(path, markdown)]
       /\ console_log (snd (program args io)) = console_log io
       /\ console_error (snd (program args io))
          = console_error io
            ++ [[Server.banner]; [lit "Markdown saved to: " ++ path]])
    \/ (exists markdown,
          console_log (snd (program args io)) = console_log io ++ [markdown]
          /\ files_written (snd (program args io)) = files_written io
          /\ console_error (snd (program args io))
             = console_error io ++ [[Server.banner]]).
Proof.
  intros args io. unfold Cli.cli.
  destruct (Cli.first_await fetch args io) as [waiting|] eqn:A.
  - unfold Server.start, Server.main. destruct connect as [u|e];
      cbn [fst snd]; [|discriminate].
    pose proof (runCli_effects args (log_error [Server.banner] io)) as R.
    intros H. rewrite H in R. cbn [log_error console_log console_error
                                    files_written] in R.
    destruct R as [(path & markdown & W & L & E) | (markdown & L & W & E)].
    + left. exists path, markdown. rewrite W, L, E.
      now rewrite <- app_assoc.
    + right. exists markdown. now rewrite W, L, E.
  - destruct (first_await_none args io A) as [-> | ->]; discriminate.
Qed.

(** X21.  The command line exits with code 0 or 1 only.  An exit with
    code 1 has printed nothing on the standard output and written no
    file, and the error console tells why: the file name is missing
    behind [--html-file]; or the server line is followed by the message
    of the failure; or the server could not be connected, and the fatal
    error of [main] is the one entry. *)
Theorem cli_failure :
  forall (args : list str) (io : Io) (code : N),
    fst (program args io) = Cli.Exited code ->
    (code = 0%N \/ code = 1%N)
    /\ (code = 1%N ->
        console_log (snd (program args io)) = console_log io
        /\ files_written (snd (program args io)) = files_written io
        /\ (console_error (snd (program args io))
            = console_error io
              ++ [[lit "Error: No HTML file specified after --html-file"]]
            \/ (exists message,
                  console_error (snd (program args io))
                  = console_error io ++ [[Server.banner]; [message]])
            \/ (exists e,
                  connect = Throw e
                  /\ console_error (snd (program args io))
                     = console_error io
                       ++ [[lit "Fatal error in main():"; e]]))).
Proof.
  intros args io code. unfold Cli.cli.
  destruct (Cli.first_await fetch args io) as [waiting|] eqn:A.
  - destruct (first_await_some args io waiting A) as (L & E & W).
    unfold Server.start, Server.main. destruct connect as [u|e];
      cbn [fst snd].
    + pose proof (runCli_effects args (log_error [Server.banner] io)) as R.
      intros H. rewrite H in R. destruct R as [C R].
      split; [exact C|]. intros H1.
      destruct (R H1) as (L1 & W1 & message & E1).
      cbn [log_error console_log console_error files_written] in *.
      repeat split; [exact L1 | exact W1 |].
      right; left. exists message. rewrite E1. now rewrite <- app_assoc.
    + intros H. inversion H; subst. split; [now right|]. intros _.
      cbn [log_error console_log console_error files_written].
      repeat split; [exact L | exact W |].
      right; right. exists e. split; [reflexivity | now rewrite E].
  - destruct (first_await_none args io A) as [-> | ->]; cbn [fst snd];
      intros H; inversion H; subst.
    + split; [now left | discriminate].
    + split; [now right|]. intros _. repeat split. now left.
Qed.

End CliFacts.

Lemma str_eqb_refl (x : str) : Cli.str_eqb x x = true.
Proof. induction x as [|c x IH]; simpl; [reflexivity|]. now rewrite N.eqb_refl. Qed.

Lemma str_eqb_sym (x y : str) : Cli.str_eqb x y = Cli.str_eqb y x.
Proof.
  revert y; induction x as [|c x IH]; intros [|d y]; simpl; try reflexivity.
  now rewrite N.eqb_sym, IH.
Qed.

Lemma includes_app (x : str) (a b : list str) :
  Cli.includes x (a ++ b) = Cli.includes x a || Cli.includes x b.
Proof. apply existsb_app. Qed.

Lemma indexOf_first (x : str) (pre rest : list str) :
  Cli.includes x pre = false ->
  Cli.indexOf x (pre ++ x :: rest) = Some (length pre).
Proof.
  induction pre as [|y pre IH]; simpl.
  - now rewrite str_eqb_refl.
  - intros H. apply orb_false_iff in H as [Hy Hpre].
    rewrite str_eqb_sym, Hy. now rewrite IH.
Qed.

Section CliArguments.

Variable converter : Options -> str -> str.
Variable fetch : str -> nat -> FetchOutcome.
Variable Document : Type.
Variable jsdom : str -> str -> Result Document.
Variable readability_parse : Document -> Result (option Article).
Variable readFile : str -> Result str.
Variable writeFile : str -> str -> Result unit.

Local Abbreviation run :=
  (Cli.runCli converter fetch Document jsdom readability_parse readFile
     writeFile).

(** X22.  When the first [--html-file] is the last argument, the command
    line reports that no file was named and exits with code 1, without
    reading a file or sending a request. *)
Theorem runCli_missing_html_file :
  forall (before : list str) (io : Io),
    help_asked (before ++ [lit "--html-file"]) = false ->
    Cli.includes (lit "--html-file") before = false ->
    run (before ++ [lit "--html-file"]) io
    = (Cli.Exited 1,
       log_error [lit "Error: No HTML file specified after --html-file"] io).
Proof.
  intros before io Hhelp Hb. unfold Cli.runCli.
  fold (help_asked (before ++ [lit "--html-file"])). rewrite Hhelp.
  rewrite includes_app, Hb, indexOf_first by assumption.
  cbn [Cli.includes existsb orb andb]. rewrite str_eqb_refl. cbn [orb andb].
  rewrite length_app. cbn [length].
  replace (Nat.leb (length before + 1) (S (length before))) with true
    by (symmetry; apply Nat.leb_le; lia).
  reflexivity.
Qed.

(** X23.  In the mode for local files the input is the argument behind the
    first [--html-file], wherever the flag stands: that file is the one
    file read, and no request is sent. *)
Theorem runCli_html_file_input :
  forall (before rest : list str) (file : str) (io : Io),
    help_asked (before ++ lit "--html-file" :: file :: rest) = false ->
    Cli.includes (lit "--html-file") before = false ->
    files_read (snd (run (before ++ lit "--html-file" :: file :: rest) io))
    = files_read io ++ [file]
    /\ requests (net (snd (run (before ++ lit "--html-file" :: file :: rest)
                             io)))
       = requests (net io).
Proof.
  intros before rest file io Hhelp Hb. unfold Cli.runCli.
  fold (help_asked (before ++ lit "--html-file" :: file :: rest)).
  rewrite Hhelp.
  rewrite includes_app, Hb, indexOf_first by assumption.
  cbn [Cli.includes existsb orb andb]. rewrite str_eqb_refl. cbn [orb andb].
  replace (Nat.leb (length (before ++ lit "--html-file" :: file :: rest))
                   (S (length before))) with false
    by (symmetry; apply Nat.leb_gt; rewrite length_app; simpl; lia).
  replace (nth (S (length before))
               (before ++ lit "--html-file" :: file :: rest) [])
    with file
    by (rewrite app_nth2 by lia;
        now replace (S (length before) - length before) with 1 by lia).
  pose proof (input_effects converter fetch Document jsdom readability_parse
                readFile true file io) as (_ & _ & _ & R & F & _).
  destruct (Cli.convert_input converter fetch Document jsdom
              readability_parse readFile true file io)
    as [[markdown|e] io1]; cbn [fst snd] in *.
  - match goal with
    | |- context [Cli.write_output writeFile ?o markdown io1] =>
        pose proof (output_effects writeFile o markdown io1) as (N & F' & _);
        destruct (Cli.write_output writeFile o markdown io1) as [[u|e] io2]
    end; cbn [fst snd net log_error files_read] in *;
      rewrite ?N, ?F', R, F; now rewrite app_nil_r.
  - cbn [net log_error files_read]. rewrite R, F. now rewrite app_nil_r.
Qed.

End CliArguments.

(** ** The answers of the forecast tool *)

Section ForecastFacts.

Variable fetch : str -> nat -> FetchOutcome.
Variable Number : Type.
Variable toFixed4 : Number -> str.
Variable number_to_string : Number -> str.
Variable number_truthy : Number -> bool.
Variable decode_points : str -> Result (option Weather.PointsResponse).
Variable decode_forecast :
  str -> Result (option (Weather.ForecastResponse Number)).

Local Abbreviation request := (Weather.makeNWSRequest fetch).
Local Abbreviation forecast_tool :=
  (Weather.get_forecast fetch Number toFixed4 number_to_string
     number_truthy decode_points decode_forecast).
Local Abbreviation period_text :=
  (Weather.format_period Number number_to_string number_truthy).

(** X24.  The [get-forecast] tool answers with one of five texts: three
    failure notices, the notice that no period is available, or the
    heading with the coordinates as they print, followed by the periods of
    a list that is not empty.  It never prints on the standard output, and
    an answer with the heading comes with nothing on the error console. *)
Theorem get_forecast_answer :
  forall (latitude longitude : Number) (io : Io),
    console_log (snd (forecast_tool latitude longitude io)) = console_log io
    /\ (fst (forecast_tool latitude longitude io)
        = lit "Failed to retrieve grid point data for coordinates: "
          ++ number_to_string latitude ++ lit ", "
          ++ number_to_string longitude
          ++ lit ". This location may not be supported by the NWS API (only US locations are supported)."
        \/ fst (forecast_tool latitude longitude io)
           = lit "Failed to get forecast URL from grid point data"
        \/ fst (forecast_tool latitude longitude io)
           = lit "Failed to retrieve forecast data"
        \/ fst (forecast_tool latitude longitude io)
           = lit "No forecast periods available"
        \/ (exists p ps,
              fst (forecast_tool latitude longitude io)
              = lit "Forecast for " ++ number_to_string latitude
                ++ lit ", " ++ number_to_string longitude ++ lit ":"
                ++ [nl; nl]
                ++ intercalate [nl] (List.map period_text (p :: ps)))
           /\ console_error (snd (forecast_tool latitude longitude io))
              = console_error io).
Proof.
  intros latitude longitude io. unfold Weather.get_forecast.
  match goal with
  | |- context [request decode_points ?u io] =>
      pose proof (request_effects fetch _ decode_points u io)
        as (_ & L1 & _ & E1);
      destruct (request decode_points u io) as [[data|] io1]
  end; cbn [fst snd] in *.
  2:{ split; [exact L1 | now left]. }
  destruct E1 as [E1 | [E1 _]]; [|discriminate].
  destruct (match Weather.points_properties data with
            | Some p => or_else (Weather.forecast p) []
            | None => []
            end) as [|c u].
  { split; [exact L1 | right; now left]. }
  pose proof (request_effects fetch _ decode_forecast (c :: u) io1)
    as (_ & L2 & _ & E2).
  destruct (request decode_forecast (c :: u) io1) as [[fdata|] io2];
    cbn [fst snd] in *.
  2:{ split; [congruence | right; right; now left]. }
  destruct E2 as [E2 | [E2 _]]; [|discriminate].
  destruct (match Weather.forecast_properties Number fdata with
            | Some p =>
                match Weather.periods Number p with
                | Some l => l
                | None => []
                end
            | None => []
            end) as [|p ps]; cbn [fst snd].
  { split; [congruence | right; right; right; now left]. }
  split; [congruence|]. right; right; right; right.
  split; [exists p, ps; reflexivity | congruence].
Qed.

(** X25.  A temperature that is falsy, as the number 0 is, is not printed:
    when both requests succeed and the forecast holds one period with such
    a temperature, the answer shows [Temperature: Unknown] before the
    degree sign and the unit. *)
Theorem get_forecast_falsy_temperature :
  forall (latitude longitude : Number) (io io1 io2 : Io)
         (pdata : Weather.PointsResponse) (pp : Weather.PointsProperties)
         (c : char) (u : str)
         (fdata : Weather.ForecastResponse Number)
         (fp : Weather.ForecastProperties Number)
         (period : Weather.ForecastPeriod Number) (t : Number),
    request decode_points
      (lit "https://api.weather.gov/points/" ++ toFixed4 latitude
       ++ lit "," ++ toFixed4 longitude) io = (Some pdata, io1) ->
    Weather.points_properties pdata = Some pp ->
    Weather.forecast pp = Some (c :: u) ->
    request decode_forecast (c :: u) io1 = (Some fdata, io2) ->
    Weather.forecast_properties Number fdata = Some fp ->
    Weather.periods Number fp = Some [period] ->
    Weather.temperature Number period = Some t ->
    number_truthy t = false ->
    fst (forecast_tool latitude longitude io)
    = lit "Forecast for " ++ number_to_string latitude ++ lit ", "
      ++ number_to_string longitude ++ lit ":" ++ [nl; nl]
      ++ (or_else (Weather.name Number period) (lit "Unknown") ++ lit ":")
      ++ [nl]
      ++ (lit "Temperature: " ++ lit "Unknown" ++ [194%N; 176%N]
          ++ or_else (Weather.temperatureUnit Number period) (lit "F"))
      ++ [nl]
      ++ (lit "Wind: "
          ++ or_else (Weather.windSpeed Number period) (lit "Unknown")
          ++ lit " " ++ or_else (Weather.windDirection Number period) [])
      ++ [nl]
      ++ or_else (Weather.shortForecast Number period)
           (lit "No forecast available")
      ++ [nl] ++ lit "---".
Proof.
  intros latitude longitude io io1 io2 pdata pp c u fdata fp period t
         H1 Hp Hf H2 Hfp Hps Ht Hz.
  unfold Weather.get_forecast.
  change (Weather.NWS_API_BASE ++ lit "/points/" ++ toFixed4 latitude
          ++ lit "," ++ toFixed4 longitude)
    with (lit "https://api.weather.gov/points/" ++ toFixed4 latitude
          ++ lit "," ++ toFixed4 longitude).
  rewrite H1, Hp, Hf. cbn [or_else]. rewrite H2, Hfp, Hps.
  cbn [List.map fst intercalate]. unfold Weather.format_period.
  rewrite Ht, Hz. cbn [intercalate].
  repeat rewrite <- app_assoc. reflexivity.
Qed.

End ForecastFacts.

(** ** Examples for the properties above *)

(** The service is unavailable. *)
Lemma makeNWSRequest_effects_witness :
  fst (Weather.makeNWSRequest (answering (page 503 []))
         (decoding no_points) (lit "https://api.weather.gov/points/1,2")
         empty_io) = None
  /\ console_error
       (snd (Weather.makeNWSRequest (answering (page 503 []))
               (decoding no_points)
               (lit "https://api.weather.gov/points/1,2") empty_io))
     = [] ++ [[lit "Error making NWS request:";
               lit "HTTP error! status: " ++ decimal 503]].
Proof.
  exact (proj2 (proj2 (makeNWSRequest_effects (answering (page 503 []))
                         _ (decoding no_points)
                         (lit "https://api.weather.gov/points/1,2")
                         empty_io))
           _ eq_refl eq_refl).
Defined.

(** A state without alerts, asked for in lower case. *)
Lemma get_alerts_no_alerts_witness :
  fst (Weather.get_alerts (answering (page 200 (lit "{}"))) ascii_upper
         (decoding (Some {| Weather.features := None |}))
         (lit "ca") empty_io)
  = lit "No active alerts for " ++ lit "CA".
Proof.
  exact (proj2 (get_alerts_no_alerts (answering (page 200 (lit "{}")))
                  ascii_upper
                  (decoding (Some {| Weather.features := None |}))
                  (lit "ca") empty_io _ (lit "{}")
                  {| Weather.features := None |} eq_refl)
           eq_refl eq_refl eq_refl (or_introl eq_refl)).
Defined.

(** An alert whose event is the empty string and whose headline is
    missing. *)
Lemma formatAlert_values_witness :
  Weather.formatAlert
    {| Weather.alert_properties :=
         {| Weather.event := Some [];
            Weather.areaDesc := Some (lit "Kern County");
            Weather.severity := Some (lit "Severe");
            Weather.alert_status := Some (lit "Actual");
            Weather.headline := None |} |}
  = lit "Event: Unknown" ++ [nl] ++ lit "Area: Kern County" ++ [nl]
    ++ lit "Severity: Severe" ++ [nl] ++ lit "Status: Actual" ++ [nl]
    ++ lit "Headline: No headline" ++ [nl] ++ lit "---".
Proof.
  destruct (formatAlert_values
              {| Weather.alert_properties :=
                   {| Weather.event := Some [];
                      Weather.areaDesc := Some (lit "Kern County");
                      Weather.severity := Some (lit "Severe");
                      Weather.alert_status := Some (lit "Actual");
                      Weather.headline := None |} |})
    as (v1 & v2 & v3 & v4 & v5 & _ & E & H).
  destruct (H _ eq_refl) as [H1 H5].
  rewrite (H1 (or_intror eq_refl)), (H5 (or_introl eq_refl)) in E.
  reflexivity.
Defined.

(** Coordinates for which the service knows no grid point. *)
Lemma get_forecast_requests_witness :
  requests (net (snd (Weather.get_forecast (answering (page 404 []))
                        N fixed4 decimal nonzero (decoding no_points)
                        (decoding no_forecast) 48%N 11%N empty_io)))
  = [] ++ [lit "https://api.weather.gov/points/" ++ fixed4 48
           ++ lit "," ++ fixed4 11].
Proof.
  exact (proj1 (proj1 (get_forecast_requests (answering (page 404 []))
                         N fixed4 decimal nonzero (decoding no_points)
                         (decoding no_forecast) 48%N 11%N empty_io)
                  eq_refl)).
Defined.

(** Help wins over the other arguments. *)
Lemma runCli_help_witness :
  snd (Cli.runCli (fun _ html => html) (answering (page 200 [])) str
         text_dom (extracting None) (reading (Ok [])) (writing (Ok tt))
         [lit "--html-file"; lit "in.html"; lit "-h"] empty_io)
  = log_line Cli.usage empty_io.
Proof.
  exact (proj2 (runCli_help (fun _ html => html) (answering (page 200 []))
                  str text_dom (extracting None) (reading (Ok []))
                  (writing (Ok tt))
                  [lit "--html-file"; lit "in.html"; lit "-h"] empty_io)
           eq_refl).
Defined.

Lemma runCli_html_file_offline_witness :
  requests
    (net (snd (Cli.runCli (fun _ html => html) (answering (page 200 []))
                 str text_dom (extracting None)
                 (reading (Ok (lit "<p>Hi</p>"))) (writing (Ok tt))
                 [lit "--html-file"; lit "in.html"; lit "out.md"]
                 empty_io)))
  = [].
Proof.
  exact (runCli_html_file_offline (fun _ html => html)
           (answering (page 200 [])) str text_dom (extracting None)
           (reading (Ok (lit "<p>Hi</p>"))) (writing (Ok tt))
           [lit "--html-file"; lit "in.html"; lit "out.md"] empty_io
           eq_refl).
Defined.

Lemma runCli_url_mode_witness :
  requests
    (net (snd (Cli.runCli (fun _ html => html) (answering (page 200 []))
                 str text_dom (extracting None)
                 (reading (Ok [])) (writing (Ok tt))
                 [lit "https://ex.com"; lit "out.md"] empty_io)))
  = [] ++ [lit "https://ex.com"]
  /\ files_read
       (snd (Cli.runCli (fun _ html => html) (answering (page 200 []))
               str text_dom (extracting None)
               (reading (Ok [])) (writing (Ok tt))
               [lit "https://ex.com"; lit "out.md"] empty_io))
     = [].
Proof.
  exact (runCli_url_mode (fun _ html => html) (answering (page 200 []))
           str text_dom (extracting None) (reading (Ok []))
           (writing (Ok tt)) [lit "https://ex.com"; lit "out.md"] empty_io
           eq_refl eq_refl).
Defined.

(** A local file converted into an output file, with the server
    connected. *)
Lemma cli_output_once_witness :
  (exists path markdown,
     files_written
       (snd (Cli.cli (fun _ html => html) (answering (page 200 []))
               str text_dom (extracting None)
               (reading (Ok (lit "Hi"))) (writing (Ok tt)) (Ok tt)
               [lit "--html-file"; lit "in.html"; lit "out.md"] empty_io))
     = [] ++ [(path, markdown)]
     /\ console_log
          (snd (Cli.cli (fun _ html => html) (answering (page 200 []))
                  str text_dom (extracting None)
                  (reading (Ok (lit "Hi"))) (writing (Ok tt)) (Ok tt)
                  [lit "--html-file"; lit "in.html"; lit "out.md"]
                  empty_io))
        = []
     /\ console_error
          (snd (Cli.cli (fun _ html => html) (answering (page 200 []))
                  str text_dom (extracting None)
                  (reading (Ok (lit "Hi"))) (writing (Ok tt)) (Ok tt)
                  [lit "--html-file"; lit "in.html"; lit "out.md"]
                  empty_io))
        = [] ++ [[Server.banner]; [lit "Markdown saved to: " ++ path]])
  \/ (exists markdown,
        console_log
          (snd (Cli.cli (fun _ html => html) (answering (page 200 []))
                  str text_dom (extracting None)
                  (reading (Ok (lit "Hi"))) (writing (Ok tt)) (Ok tt)
                  [lit "--html-file"; lit "in.html"; lit "out.md"]
                  empty_io))
        = [] ++ [markdown]
        /\ files_written
             (snd (Cli.cli (fun _ html => html)
                     (answering (page 200 [])) str text_dom
                     (extracting None) (reading (Ok (lit "Hi")))
                     (writing (Ok tt)) (Ok tt)
                     [lit "--html-file"; lit "in.html"; lit "out.md"]
                     empty_io))
           = []
        /\ console_error
             (snd (Cli.cli (fun _ html => html)
                     (answering (page 200 [])) str text_dom
                     (extracting None) (reading (Ok (lit "Hi")))
                     (writing (Ok tt)) (Ok tt)
                     [lit "--html-file"; lit "in.html"; lit "out.md"]
                     empty_io))
           = [] ++ [[Server.banner]]).
Proof.
  exact (cli_output_once (fun _ html => html) (answering (page 200 []))
           str text_dom (extracting None) (reading (Ok (lit "Hi")))
           (writing (Ok tt)) (Ok tt)
           [lit "--html-file"; lit "in.html"; lit "out.md"] empty_io
           eq_refl).
Defined.

(** A file that cannot be read, with the server connected. *)
Lemma cli_failure_witness :
  console_log
    (snd (Cli.cli (fun _ html => html) (answering (page 200 [])) str
            text_dom (extracting None)
            (reading (Throw (lit "ENOENT: no such file")))
            (writing (Ok tt)) (Ok tt) [lit "--html-file"; lit "in.html"]
            empty_io))
  = []
  /\ console_error
       (snd (Cli.cli (fun _ html => html) (answering (page 200 [])) str
               text_dom (extracting None)
               (reading (Throw (lit "ENOENT: no such file")))
               (writing (Ok tt)) (Ok tt) [lit "--html-file"; lit "in.html"]
               empty_io))
     = [[Server.banner];
        [lit "Error reading HTML file: ENOENT: no such file"]].
Proof.
  destruct (proj2 (cli_failure (fun _ html => html)
                     (answering (page 200 [])) str text_dom
                     (extracting None)
                     (reading (Throw (lit "ENOENT: no such file")))
                     (writing (Ok tt)) (Ok tt)
                     [lit "--html-file"; lit "in.html"] empty_io 1%N
                     eq_refl)
              eq_refl) as (L & _ & _).
  split; [exact L | reflexivity].
Defined.

Lemma runCli_missing_html_file_witness :
  Cli.runCli (fun _ html => html) (answering (page 200 [])) str text_dom
    (extracting None) (reading (Ok [])) (writing (Ok tt))
    ([lit "out.md"] ++ [lit "--html-file"]) empty_io
  = (Cli.Exited 1,
     log_error [lit "Error: No HTML file specified after --html-file"]
       empty_io).
Proof.
  exact (runCli_missing_html_file (fun _ html => html)
           (answering (page 200 [])) str text_dom (extracting None)
           (reading (Ok [])) (writing (Ok tt)) [lit "out.md"] empty_io
           eq_refl eq_refl).
Defined.

(** The flag behind another argument. *)
Lemma runCli_html_file_input_witness :
  files_read
    (snd (Cli.runCli (fun _ html => html) (answering (page 200 [])) str
            text_dom (extracting None) (reading (Ok (lit "Hi")))
            (writing (Ok tt))
            ([lit "out.md"] ++ lit "--html-file" :: lit "in.html" :: [])
            empty_io))
  = [] ++ [lit "in.html"]
  /\ requests
       (net (snd (Cli.runCli (fun _ html => html) (answering (page 200 []))
                    str text_dom (extracting None)
                    (reading (Ok (lit "Hi"))) (writing (Ok tt))
                    ([lit "out.md"] ++ lit "--html-file" :: lit "in.html"
                                    :: [])
                    empty_io)))
     = [].
Proof.
  exact (runCli_html_file_input (fun _ html => html)
           (answering (page 200 [])) str text_dom (extracting None)
           (reading (Ok (lit "Hi"))) (writing (Ok tt))
           [lit "out.md"] [] (lit "in.html") empty_io eq_refl eq_refl).
Defined.

(** A station that reports zero degrees. *)
Lemma get_forecast_falsy_temperature_witness :
  fst (Weather.get_forecast (answering (page 200 (lit "{}"))) N fixed4
         decimal nonzero (decoding (Some sample_points))
         (decoding (Some sample_forecast)) 40%N 75%N empty_io)
  = lit "Forecast for 40, 75:" ++ [nl; nl]
    ++ lit "Tonight:" ++ [nl]
    ++ lit "Temperature: Unknown" ++ [194%N; 176%N] ++ lit "F" ++ [nl]
    ++ lit "Wind: 5 mph NW" ++ [nl]
    ++ lit "Clear" ++ [nl] ++ lit "---".
Proof.
  exact (get_forecast_falsy_temperature (answering (page 200 (lit "{}")))
           N fixed4 decimal nonzero (decoding (Some sample_points))
           (decoding (Some sample_forecast)) 40%N 75%N empty_io
           (set_net {| regexps := []; services := [];
                       requests := [lit "https://api.weather.gov/points/"
                                    ++ fixed4 40 ++ lit "," ++ fixed4 75] |}
              empty_io)
           (set_net {| regexps := []; services := [];
                       requests := [lit "https://api.weather.gov/points/"
                                    ++ fixed4 40 ++ lit "," ++ fixed4 75;
                                    lit "https://api.weather.gov/f"] |}
              empty_io)
           sample_points sample_address 104%N
           (lit "ttps://api.weather.gov/f") sample_forecast sample_periods
           sample_period 0%N
           eq_refl eq_refl eq_refl eq_refl eq_refl eq_refl eq_refl eq_refl).
Defined.
